(** * ha_ldb: a MySQL storage-engine handler over LevelDB

    Shallow embedding of [src/leveldb/ha_ldb.cc] and [src/leveldb/ha_ldb.h].

    The handler's methods are functions on an explicit process state: the
    engine's globals ([options], [wo], [ldb_open_tables], [ldb_mutex]), the
    heap of [LEVELDB_SHARE] and [ha_ldb] objects, the per-session [trx_t]
    slot ([thd_get_ha_data]/[thd_set_ha_data]) and the LevelDB world the
    engine talks to.  A method returns [None] where the C++ code has no
    defined result (a null or dangling pointer is dereferenced, a buffer is
    read or written past its end, a mutex that is never released is
    locked again). *)

From Stdlib Require Import ZArith List Lia.
From Stdlib.Strings Require Import Byte.
From stdpp Require Import base option list countable gmap strings.

#[local] Open Scope Z_scope.

(** ** Byte strings *)

Abbreviation bytes := (list byte).

#[global] Instance byte_eq_decision : EqDecision byte.
Proof. intros x y. destruct (Byte.eqb x y) eqn:E.
  - left. now apply Byte.byte_dec_bl.
  - right. intros ->. now rewrite Byte.byte_dec_lb in E.
Defined.

#[global] Instance byte_countable : Countable byte :=
  inj_countable Byte.to_N Byte.of_N Byte.of_to_N.

(** [n] bytes of [buf] starting at [off]; undefined past the end of [buf]. *)
Definition read_bytes (buf : bytes) (off n : nat) : option bytes :=
  if decide (off + n <= length buf)%nat then Some (take n (drop off buf)) else None.

(** [memcpy(buf, src, length src)]: undefined when [src] is longer than [buf]. *)
Definition memcpy (buf src : bytes) : option bytes :=
  if decide (length src <= length buf)%nat
  then Some (src ++ drop (length src) buf) else None.

(** ** Constants of the host (my_base.h, table.h, fcntl.h) *)

Definition HA_ERR_WRONG_INDEX : Z := 124.
Definition HA_ERR_WRONG_COMMAND : Z := 131.
Definition HA_ERR_END_OF_FILE : Z := 137.
Definition HA_VAR_LENGTH_PART : Z := 8.
Definition STATUS_NOT_FOUND : Z := 2.
Definition F_UNLCK : Z := 2.
Definition UINT_MODULUS : Z := 2 ^ 32.

Inductive ha_base_keytype :=
| HA_KEYTYPE_END | HA_KEYTYPE_TEXT | HA_KEYTYPE_BINARY | HA_KEYTYPE_SHORT_INT
| HA_KEYTYPE_LONG_INT | HA_KEYTYPE_FLOAT | HA_KEYTYPE_DOUBLE | HA_KEYTYPE_NUM
| HA_KEYTYPE_USHORT_INT | HA_KEYTYPE_ULONG_INT | HA_KEYTYPE_LONGLONG
| HA_KEYTYPE_ULONGLONG | HA_KEYTYPE_INT24 | HA_KEYTYPE_UINT24 | HA_KEYTYPE_INT8
| HA_KEYTYPE_VARTEXT1 | HA_KEYTYPE_VARBINARY1 | HA_KEYTYPE_VARTEXT2
| HA_KEYTYPE_VARBINARY2 | HA_KEYTYPE_BIT.

#[global] Instance ha_base_keytype_eq_dec : EqDecision ha_base_keytype.
Proof. solve_decision. Defined.

(** The parts of the host's table descriptor the handler reads. *)
Record KEY_PART_INFO := {
  kp_offset : nat;
  kp_length : nat;
  kp_type : ha_base_keytype;
  key_part_flag : Z }.

Record KEY := { key_part : list KEY_PART_INFO }.

Record TABLE_SHARE := {
  rec_buff_length : nat;
  key_parts : Z;
  uniques : Z }.

Record TABLE := {
  key_info : list KEY;
  s : TABLE_SHARE;
  status : Z }.

Definition set_status (t : TABLE) (v : Z) : TABLE :=
  {| key_info := key_info t; s := s t; status := v |}.

(** ** LevelDB objects *)

Inductive Status :=
| kOk | kNotFound | kCorruption | kNotSupported | kInvalidArgument | kIOError.

Definition ok (st : Status) : bool :=
  match st with kOk => true | _ => false end.

Inductive BatchOp :=
| Put (key value : bytes)
| Delete (key : bytes).

Abbreviation WriteBatch := (list BatchOp).

(** What a session's call sees of LevelDB, in call order. *)
Inductive Event :=
| EvOpen (name : string) (create_if_missing : bool) (write_buffer_size : Z) (r : Status)
| EvGet (db : nat) (key : bytes) (r : Status)
| EvWrite (db : nat) (sync : bool) (batch : WriteBatch) (r : Status)
| EvClose (db : nat)
| EvDestroy (name : string) (r : Status).

(** ** Engine objects (ha_ldb.h) *)

Record LEVELDB_SHARE := {
  table_name : string;
  use_count : Z;
  db : option nat }.

Record trx_t := {
  pobj : nat;
  batch : WriteBatch }.

Record ha_ldb := {
  share : option nat;
  dbpath : string;
  table : TABLE }.

(** What the outside world answers during one call of a handler method. *)
Record Env := {
  (** the failure LevelDB reports for the call's store operation, [kOk] if
      the store works *)
  io_fault : Status;
  (** [my_multi_malloc] returns NULL *)
  malloc_fails : bool;
  (** [my_hash_insert] reports failure *)
  hash_insert_fails : bool;
  (** mysys [my_compress(packet, &len, &complen)]: the return flag, the
      packet afterwards, [*len] and [*complen] afterwards *)
  my_compress : bytes → nat → bool * bytes * nat * nat;
  (** mysys [my_uncompress(packet, len, &complen)]: the return flag, the
      packet afterwards and [*complen] afterwards *)
  my_uncompress : bytes → nat → nat → bool * bytes * nat }.

Record State := {
  options_write_buffer_size : Z;
  options_create_if_missing : bool;
  wo_sync : bool;
  ldb_open_tables : list nat;
  ldb_mutex : bool;
  shares : gmap nat LEVELDB_SHARE;
  handlers : gmap nat ha_ldb;
  ha_data : gmap nat trx_t;
  my_errno : gmap nat Z;
  dbs : gmap nat string;
  disk : gmap string (gmap bytes bytes);
  next_addr : nat;
  trace : list Event }.

(** Field updates of [State]. *)
Definition set_options_write_buffer_size (f : Z → Z) (st : State) : State :=
  {| options_write_buffer_size := f (options_write_buffer_size st);
     options_create_if_missing := options_create_if_missing st;
     wo_sync := wo_sync st; ldb_open_tables := ldb_open_tables st;
     ldb_mutex := ldb_mutex st; shares := shares st;
     handlers := handlers st; ha_data := ha_data st;
     my_errno := my_errno st; dbs := dbs st; disk := disk st;
     next_addr := next_addr st; trace := trace st |}.

Definition set_options_create_if_missing (f : bool → bool) (st : State) : State :=
  {| options_write_buffer_size := options_write_buffer_size st;
     options_create_if_missing := f (options_create_if_missing st);
     wo_sync := wo_sync st; ldb_open_tables := ldb_open_tables st;
     ldb_mutex := ldb_mutex st; shares := shares st;
     handlers := handlers st; ha_data := ha_data st;
     my_errno := my_errno st; dbs := dbs st; disk := disk st;
     next_addr := next_addr st; trace := trace st |}.

Definition set_wo_sync (f : bool → bool) (st : State) : State :=
  {| options_write_buffer_size := options_write_buffer_size st;
     options_create_if_missing := options_create_if_missing st;
     wo_sync := f (wo_sync st); ldb_open_tables := ldb_open_tables st;
     ldb_mutex := ldb_mutex st; shares := shares st;
     handlers := handlers st; ha_data := ha_data st;
     my_errno := my_errno st; dbs := dbs st; disk := disk st;
     next_addr := next_addr st; trace := trace st |}.

Definition set_ldb_open_tables (f : list nat → list nat) (st : State) : State :=
  {| options_write_buffer_size := options_write_buffer_size st;
     options_create_if_missing := options_create_if_missing st;
     wo_sync := wo_sync st; ldb_open_tables := f (ldb_open_tables st);
     ldb_mutex := ldb_mutex st; shares := shares st;
     handlers := handlers st; ha_data := ha_data st;
     my_errno := my_errno st; dbs := dbs st; disk := disk st;
     next_addr := next_addr st; trace := trace st |}.

Definition set_ldb_mutex (f : bool → bool) (st : State) : State :=
  {| options_write_buffer_size := options_write_buffer_size st;
     options_create_if_missing := options_create_if_missing st;
     wo_sync := wo_sync st; ldb_open_tables := ldb_open_tables st;
     ldb_mutex := f (ldb_mutex st); shares := shares st;
     handlers := handlers st; ha_data := ha_data st;
     my_errno := my_errno st; dbs := dbs st; disk := disk st;
     next_addr := next_addr st; trace := trace st |}.

Definition set_shares (f : gmap nat LEVELDB_SHARE → gmap nat LEVELDB_SHARE) (st : State) : State :=
  {| options_write_buffer_size := options_write_buffer_size st;
     options_create_if_missing := options_create_if_missing st;
     wo_sync := wo_sync st; ldb_open_tables := ldb_open_tables st;
     ldb_mutex := ldb_mutex st; shares := f (shares st);
     handlers := handlers st; ha_data := ha_data st;
     my_errno := my_errno st; dbs := dbs st; disk := disk st;
     next_addr := next_addr st; trace := trace st |}.

Definition set_handlers (f : gmap nat ha_ldb → gmap nat ha_ldb) (st : State) : State :=
  {| options_write_buffer_size := options_write_buffer_size st;
     options_create_if_missing := options_create_if_missing st;
     wo_sync := wo_sync st; ldb_open_tables := ldb_open_tables st;
     ldb_mutex := ldb_mutex st; shares := shares st;
     handlers := f (handlers st); ha_data := ha_data st;
     my_errno := my_errno st; dbs := dbs st; disk := disk st;
     next_addr := next_addr st; trace := trace st |}.

Definition set_ha_data (f : gmap nat trx_t → gmap nat trx_t) (st : State) : State :=
  {| options_write_buffer_size := options_write_buffer_size st;
     options_create_if_missing := options_create_if_missing st;
     wo_sync := wo_sync st; ldb_open_tables := ldb_open_tables st;
     ldb_mutex := ldb_mutex st; shares := shares st;
     handlers := handlers st; ha_data := f (ha_data st);
     my_errno := my_errno st; dbs := dbs st; disk := disk st;
     next_addr := next_addr st; trace := trace st |}.

Definition set_my_errno (f : gmap nat Z → gmap nat Z) (st : State) : State :=
  {| options_write_buffer_size := options_write_buffer_size st;
     options_create_if_missing := options_create_if_missing st;
     wo_sync := wo_sync st; ldb_open_tables := ldb_open_tables st;
     ldb_mutex := ldb_mutex st; shares := shares st;
     handlers := handlers st; ha_data := ha_data st;
     my_errno := f (my_errno st); dbs := dbs st; disk := disk st;
     next_addr := next_addr st; trace := trace st |}.

Definition set_dbs (f : gmap nat string → gmap nat string) (st : State) : State :=
  {| options_write_buffer_size := options_write_buffer_size st;
     options_create_if_missing := options_create_if_missing st;
     wo_sync := wo_sync st; ldb_open_tables := ldb_open_tables st;
     ldb_mutex := ldb_mutex st; shares := shares st;
     handlers := handlers st; ha_data := ha_data st;
     my_errno := my_errno st; dbs := f (dbs st); disk := disk st;
     next_addr := next_addr st; trace := trace st |}.

Definition set_disk (f : gmap string (gmap bytes bytes) → gmap string (gmap bytes bytes)) (st : State) : State :=
  {| options_write_buffer_size := options_write_buffer_size st;
     options_create_if_missing := options_create_if_missing st;
     wo_sync := wo_sync st; ldb_open_tables := ldb_open_tables st;
     ldb_mutex := ldb_mutex st; shares := shares st;
     handlers := handlers st; ha_data := ha_data st;
     my_errno := my_errno st; dbs := dbs st; disk := f (disk st);
     next_addr := next_addr st; trace := trace st |}.

Definition set_next_addr (f : nat → nat) (st : State) : State :=
  {| options_write_buffer_size := options_write_buffer_size st;
     options_create_if_missing := options_create_if_missing st;
     wo_sync := wo_sync st; ldb_open_tables := ldb_open_tables st;
     ldb_mutex := ldb_mutex st; shares := shares st;
     handlers := handlers st; ha_data := ha_data st;
     my_errno := my_errno st; dbs := dbs st; disk := disk st;
     next_addr := f (next_addr st); trace := trace st |}.

Definition set_trace (f : list Event → list Event) (st : State) : State :=
  {| options_write_buffer_size := options_write_buffer_size st;
     options_create_if_missing := options_create_if_missing st;
     wo_sync := wo_sync st; ldb_open_tables := ldb_open_tables st;
     ldb_mutex := ldb_mutex st; shares := shares st;
     handlers := handlers st; ha_data := ha_data st;
     my_errno := my_errno st; dbs := dbs st; disk := disk st;
     next_addr := next_addr st; trace := f (trace st) |}.

(** ** A state monad with undefined behaviour *)

Definition M (A : Type) : Type := State → option (A * State).

Definition ret {A} (a : A) : M A := λ st, Some (a, st).

Definition bind {A B} (m : M A) (k : A → M B) : M B :=
  λ st, match m st with
        | Some (a, st') => k a st'
        | None => None
        end.

Definition undefined {A} : M A := λ _, None.

Definition get : M State := λ st, Some (st, st).

Definition modify (f : State → State) : M unit := λ st, Some (tt, f st).

Definition deref {A} (o : option A) : M A :=
  match o with
  | Some a => ret a
  | None => undefined
  end.

Notation "x <- m ;; k" := (bind m (λ x, k))
  (at level 100, m at next level, right associativity).
Notation "m ;; k" := (bind m (λ _, k))
  (at level 100, right associativity).

Definition log (e : Event) : M unit := modify (set_trace (λ t, t ++ [e])).

(** [new]: a fresh address. *)
Definition alloc : M nat :=
  st <- get ;;
  modify (set_next_addr S) ;;
  ret (next_addr st).

(** ** LevelDB, as the engine uses it

    LevelDB is a library outside this repository.  Its databases are
    modelled by their contents per directory; an open [leveldb::DB] object
    is the directory it was opened on.  Any call may fail with the status
    the environment injects; a failed [Write] applies nothing. *)

Definition apply_op (m : gmap bytes bytes) (o : BatchOp) : gmap bytes bytes :=
  match o with
  | Put k v => <[k := v]> m
  | Delete k => delete k m
  end.

Definition apply_batch (b : WriteBatch) (m : gmap bytes bytes) : gmap bytes bytes :=
  fold_left apply_op b m.

Definition contents (st : State) (name : string) : gmap bytes bytes :=
  default ∅ (disk st !! name).

(** [leveldb::DB::Open(options, name, &db)] *)
Definition DB_Open (e : Env) (name : string) : M (Status * option nat) :=
  st <- get ;;
  let cim := options_create_if_missing st in
  let r := if ok (io_fault e)
           then match disk st !! name with
                | Some _ => kOk
                | None => if cim then kOk else kInvalidArgument
                end
           else io_fault e in
  log (EvOpen name cim (options_write_buffer_size st) r) ;;
  if ok r then
    d <- alloc ;;
    modify (set_disk (λ dk, <[name := default ∅ (dk !! name)]> dk)) ;;
    modify (set_dbs <[d := name]>) ;;
    ret (r, Some d)
  else ret (r, None).

(** [db->Get(leveldb::ReadOptions(), key, &value)], [value] empty before *)
Definition DB_Get (e : Env) (d : nat) (key : bytes) : M (Status * bytes) :=
  st <- get ;;
  name <- deref (dbs st !! d) ;;
  let found := contents st name !! key in
  let r := if ok (io_fault e)
           then match found with Some _ => kOk | None => kNotFound end
           else io_fault e in
  log (EvGet d key r) ;;
  ret (r, if ok r then default [] found else []).

(** [db->Write(wo, &batch)] *)
Definition DB_Write (e : Env) (d : nat) (sync : bool) (b : WriteBatch) : M Status :=
  st <- get ;;
  name <- deref (dbs st !! d) ;;
  let r := io_fault e in
  log (EvWrite d sync b r) ;;
  (if ok r
   then modify (set_disk <[name := apply_batch b (contents st name)]>)
   else ret tt) ;;
  ret r.

(** [delete db] *)
Definition DB_delete (d : option nat) : M unit :=
  match d with
  | None => ret tt
  | Some d =>
    st <- get ;;
    deref (dbs st !! d) ;;
    log (EvClose d) ;;
    modify (set_dbs (delete d))
  end.

(** [leveldb::DestroyDB(name, leveldb::Options())] *)
Definition DestroyDB (e : Env) (name : string) : M Status :=
  let r := io_fault e in
  log (EvDestroy name r) ;;
  (if ok r then modify (set_disk (delete name)) else ret tt) ;;
  ret r.

(** ** The engine (ha_ldb.cc) *)

(** State after [ldb_init_func]: [ldb_mutex] initialised, [ldb_open_tables]
    empty; [options] and [wo] as their constructors leave them. *)
Definition initial_state : State :=
  {| options_write_buffer_size := 4194304;
     options_create_if_missing := false;
     wo_sync := false;
     ldb_open_tables := [];
     ldb_mutex := false;
     shares := ∅; handlers := ∅; ha_data := ∅; my_errno := ∅;
     dbs := ∅; disk := ∅; next_addr := 0%nat; trace := [] |}.

Definition mysql_mutex_lock : M unit :=
  st <- get ;;
  if ldb_mutex st then undefined else modify (set_ldb_mutex (λ _, true)).

Definition mysql_mutex_unlock : M unit := modify (set_ldb_mutex (λ _, false)).

(** [my_hash_search(&ldb_open_tables, table_name, length)]: the record whose
    key ([ldb_get_key]: the share's table name) is [name]. *)
Definition my_hash_search (st : State) (name : string) : option nat :=
  find (λ p, match shares st !! p with
             | Some sh => bool_decide (table_name sh = name)
             | None => false
             end) (ldb_open_tables st).

(** [my_hash_delete(&ldb_open_tables, share)] *)
Definition my_hash_delete (p : nat) : M unit :=
  modify (set_ldb_open_tables (filter (λ q, q ≠ p))).

Definition ldb_done_func (st : State) : Z :=
  if decide (ldb_open_tables st = []) then 0 else 1.

Definition leveldb_open (e : Env) (name : string) (create_if_missing : bool)
  : M (Status * option nat) :=
  modify (set_options_write_buffer_size (λ _, 33554432)) ;;
  modify (set_options_create_if_missing (λ _, create_if_missing)) ;;
  r <- DB_Open e name ;;
  modify (set_wo_sync (λ _, true)) ;;
  ret r.

Definition uint_incr (n : Z) : Z := (n + 1) mod UINT_MODULUS.
Definition uint_decr (n : Z) : Z := (n - 1) mod UINT_MODULUS.

Definition set_use_count (sh : LEVELDB_SHARE) (n : Z) : LEVELDB_SHARE :=
  {| table_name := table_name sh; use_count := n; db := db sh |}.

Definition set_db (sh : LEVELDB_SHARE) (d : option nat) : LEVELDB_SHARE :=
  {| table_name := table_name sh; use_count := use_count sh; db := d |}.

Definition get_share (e : Env) (name : string) : M (option nat) :=
  mysql_mutex_lock ;;
  st <- get ;;
  match my_hash_search st name with
  | Some p =>
    sh <- deref (shares st !! p) ;;
    modify (set_shares <[p := set_use_count sh (uint_incr (use_count sh))]>) ;;
    mysql_mutex_unlock ;;
    ret (Some p)
  | None =>
    if malloc_fails e then
      mysql_mutex_unlock ;;
      ret None
    else
      p <- alloc ;;
      r <- leveldb_open e name false ;;
      let sh := {| table_name := name; use_count := 0; db := r.2 |} in
      if hash_insert_fails e then
        (* error: the share is freed, [ldb_mutex] stays locked *)
        ret None
      else
        modify (set_ldb_open_tables (λ l, l ++ [p])) ;;
        modify (set_shares <[p := set_use_count sh (uint_incr (use_count sh))]>) ;;
        mysql_mutex_unlock ;;
        ret (Some p)
  end.

Definition free_share (p : option nat) : M Z :=
  mysql_mutex_lock ;;
  st <- get ;;
  p <- deref p ;;
  sh <- deref (shares st !! p) ;;
  let n := uint_decr (use_count sh) in
  (if decide (n = 0) then
     DB_delete (db sh) ;;
     my_hash_delete p ;;
     modify (set_shares (delete p))
   else
     modify (set_shares <[p := set_use_count sh n]>)) ;;
  mysql_mutex_unlock ;;
  ret 0.

(** [ldb_create_handler]: a new [ha_ldb] for the host's table. *)
Definition ldb_create_handler (t : TABLE) : M nat :=
  h <- alloc ;;
  modify (set_handlers <[h := {| share := None; dbpath := ""; table := t |}]>) ;;
  ret h.

(** [free_trx(ldb_hton, trx)] on the current session [thd]; [trx] is the
    session's own transaction object or NULL. *)
Definition free_trx (thd : nat) (trx : option trx_t) : M unit :=
  modify (set_ha_data (delete thd)).

Definition this_handler (h : nat) : M ha_ldb :=
  st <- get ;; deref (handlers st !! h).

Definition set_share (o : ha_ldb) (p : option nat) : ha_ldb :=
  {| share := p; dbpath := dbpath o; table := table o |}.

Definition set_dbpath (o : ha_ldb) (n : string) : ha_ldb :=
  {| share := share o; dbpath := n; table := table o |}.

Definition set_table (o : ha_ldb) (t : TABLE) : ha_ldb :=
  {| share := share o; dbpath := dbpath o; table := t |}.

Definition ha_ldb_open (e : Env) (h : nat) (name : string) : M Z :=
  this <- this_handler h ;;
  p <- get_share e name ;;
  modify (set_handlers <[h := set_share this p]>) ;;
  match p with
  | None => ret 1
  | Some _ => ret 0
  end.

Definition ha_ldb_close (h : nat) : M Z :=
  this <- this_handler h ;;
  free_share (share this).

(** [table->key_info[0].key_part] *)
Definition first_key_part (t : TABLE) : option KEY_PART_INFO :=
  k ← key_info t !! 0%nat; key_part k !! 0%nat.

Definition get_key (this : ha_ldb) (buf : bytes) (key : bytes) : option bytes :=
  key_part ← first_key_part (table this);
  let bit_start := 0%nat in
  let bit_start :=
    if bool_decide (kp_type key_part = HA_KEYTYPE_VARTEXT1
                    ∨ kp_type key_part = HA_KEYTYPE_VARBINARY1)
    then 1%nat else bit_start in
  let bit_start :=
    if bool_decide (kp_type key_part = HA_KEYTYPE_VARTEXT2
                    ∨ kp_type key_part = HA_KEYTYPE_VARBINARY2)
    then 2%nat else bit_start in
  slice ← read_bytes buf (kp_offset key_part + bit_start) (kp_length key_part);
  Some (key ++ slice).

(** [thd_get_ha_data(current_thd, ldb_hton)] dereferenced *)
Definition current_trx (thd : nat) : M trx_t :=
  st <- get ;; deref (ha_data st !! thd).

Definition batch_append (thd : nat) (o : BatchOp) : M unit :=
  trx <- current_trx thd ;;
  modify (set_ha_data <[thd := {| pobj := pobj trx; batch := batch trx ++ [o] |}]>).

(** The methods return their code and the caller's row buffer as they leave it. *)
Definition ha_ldb_write_row (e : Env) (thd h : nat) (buf : bytes) : M (Z * bytes) :=
  this <- this_handler h ;;
  key <- deref (get_key this buf []) ;;
  let raw_len := rec_buff_length (s (table this)) in
  (* [my_compress] is handed [raw_len] bytes of [buf] *)
  deref (read_bytes buf 0 raw_len) ;;
  let '(failed, buf, raw_len, compressed_len) := my_compress e buf raw_len in
  let compressed_len := if failed then raw_len else compressed_len in
  value <- deref (read_bytes buf 0 raw_len) ;;
  batch_append thd (Put key value) ;;
  ret (0, buf).

Definition ha_ldb_update_row (e : Env) (thd h : nat) (old_data new_data : bytes)
  : M (Z * bytes) :=
  this <- this_handler h ;;
  old_key <- deref (get_key this old_data []) ;;
  new_key <- deref (get_key this new_data []) ;;
  (if decide (old_key ≠ new_key)
   then batch_append thd (Delete old_key)
   else ret tt) ;;
  r <- ha_ldb_write_row e thd h new_data ;;
  ret (0, r.2).

Definition ha_ldb_delete_row (thd h : nat) (buf : bytes) : M Z :=
  this <- this_handler h ;;
  key <- deref (get_key this buf []) ;;
  batch_append thd (Delete key) ;;
  ret 0.

(** The key [index_read] looks up, from the host's key image. *)
Definition index_read_key (this : ha_ldb) (key : bytes) (key_len : Z) : option bytes :=
  key_part ← first_key_part (table this);
  let bit_start :=
    if decide (Z.land (key_part_flag key_part) HA_VAR_LENGTH_PART ≠ 0) then 2 else 0 in
  read_bytes key (Z.to_nat bit_start) (Z.to_nat ((key_len - bit_start) mod UINT_MODULUS)).

Definition ha_ldb_index_read (e : Env) (h : nat) (buf key : bytes) (key_len : Z)
  : M (Z * bytes) :=
  this <- this_handler h ;;
  skey <- deref (index_read_key this key key_len) ;;
  st <- get ;;
  p <- deref (share this) ;;
  sh <- deref (shares st !! p) ;;
  d <- deref (db sh) ;;
  r <- DB_Get e d skey ;;
  let svalue := r.2 in
  if negb (ok r.1) then ret (HA_ERR_END_OF_FILE, buf)
  else
    buf <- deref (memcpy buf svalue) ;;
    let uncomlen := rec_buff_length (s (table this)) in
    let comlen := length svalue in
    let '(_, buf, uncomlen) := my_uncompress e buf comlen uncomlen in
    modify (set_handlers <[h := set_table this (set_status (table this) 0)]>) ;;
    ret (0, buf).

Definition ha_ldb_index_next (h : nat) (buf : bytes) : M (Z * bytes) :=
  this <- this_handler h ;;
  modify (set_handlers
            <[h := set_table this (set_status (table this) STATUS_NOT_FOUND)]>) ;;
  ret (HA_ERR_END_OF_FILE, buf).

Definition ha_ldb_index_prev (h : nat) (buf : bytes) : M (Z * bytes) :=
  let rc := HA_ERR_WRONG_COMMAND in ret (rc, buf).

Definition ha_ldb_index_first (h : nat) (buf : bytes) : M (Z * bytes) :=
  let rc := HA_ERR_WRONG_COMMAND in ret (rc, buf).

Definition ha_ldb_index_last (h : nat) (buf : bytes) : M (Z * bytes) :=
  let rc := HA_ERR_WRONG_COMMAND in ret (rc, buf).

Definition ha_ldb_rnd_init (h : nat) (scan : bool) : M Z := ret HA_ERR_WRONG_COMMAND.

Definition ha_ldb_rnd_end (h : nat) : M Z := ret HA_ERR_WRONG_COMMAND.

Definition ha_ldb_rnd_next (h : nat) (buf : bytes) : M (Z * bytes) :=
  ret (HA_ERR_WRONG_COMMAND, buf).

Definition ha_ldb_position (h : nat) (record : bytes) : M unit := ret tt.

Definition ha_ldb_rnd_pos (h : nat) (buf pos : bytes) : M (Z * bytes) :=
  let rc := HA_ERR_WRONG_COMMAND in ret (rc, buf).

Definition ha_ldb_info (h : nat) (flag : Z) : M Z := ret 0.

Definition ha_ldb_extra (h : nat) (operation : Z) : M Z := ret 0.

Definition ha_ldb_delete_all_rows (h : nat) : M Z := ret HA_ERR_WRONG_COMMAND.

Definition ha_ldb_truncate (h : nat) : M Z := ret HA_ERR_WRONG_COMMAND.

Definition ha_ldb_external_lock (e : Env) (thd h : nat) (lock_type : Z) : M Z :=
  st <- get ;;
  if decide (lock_type ≠ F_UNLCK) then
    match ha_data st !! thd with
    | None => modify (set_ha_data <[thd := {| pobj := h; batch := [] |}]>)
    | Some _ => ret tt
    end ;;
    ret 0
  else
    match ha_data st !! thd with
    | None => ret 1
    | Some trx =>
      o <- deref (handlers st !! pobj trx) ;;
      p <- deref (share o) ;;
      sh <- deref (shares st !! p) ;;
      d <- deref (db sh) ;;
      st_w <- DB_Write e d (wo_sync st) (batch trx) ;;
      free_trx thd (Some trx) ;;
      ret (if ok st_w then 0 else 1)
    end.

Definition ha_ldb_delete_table (e : Env) (h : nat) (name : string) : M Z :=
  this <- this_handler h ;;
  modify (set_handlers <[h := set_dbpath this name]>) ;;
  DestroyDB e name ;;
  ret 0.

Definition ha_ldb_rename_table (h : nat) (from to : string) : M Z :=
  ret HA_ERR_WRONG_COMMAND.

Definition ha_ldb_records_in_range (h : nat) (inx : Z) : M Z := ret 10.

Definition ha_ldb_create (e : Env) (thd h : nat) (name : string) (table_arg : TABLE)
  : M Z :=
  this <- this_handler h ;;
  if decide (key_parts (s table_arg) ≠ 1 ∨ uniques (s table_arg) ≠ 1) then
    modify (set_my_errno <[thd := HA_ERR_WRONG_INDEX]>) ;;
    ret HA_ERR_WRONG_INDEX
  else
    modify (set_handlers <[h := set_dbpath this name]>) ;;
    r <- leveldb_open e name true ;;
    ret (if ok r.1 then 0 else 1).

(** ** The handler interface, as the host calls it *)

Inductive Call :=
| Create_handler (t : TABLE)
| Open (h : nat) (name : string)
| Close (h : nat)
| Write_row (h : nat) (buf : bytes)
| Update_row (h : nat) (old_data new_data : bytes)
| Delete_row (h : nat) (buf : bytes)
| Index_read (h : nat) (buf key : bytes) (key_len : Z)
| Index_next (h : nat) (buf : bytes)
| Index_prev (h : nat) (buf : bytes)
| Index_first (h : nat) (buf : bytes)
| Index_last (h : nat) (buf : bytes)
| Rnd_init (h : nat) (scan : bool)
| Rnd_end (h : nat)
| Rnd_next (h : nat) (buf : bytes)
| Rnd_pos (h : nat) (buf pos : bytes)
| Position (h : nat) (record : bytes)
| Info (h : nat) (flag : Z)
| Extra (h : nat) (operation : Z)
| Delete_all_rows (h : nat)
| Truncate (h : nat)
| External_lock (h : nat) (lock_type : Z)
| Delete_table (h : nat) (name : string)
| Rename_table (h : nat) (from to : string)
| Records_in_range (h : nat) (inx : Z)
| Create (h : nat) (name : string) (table_arg : TABLE).

Definition code (m : M Z) : M (Z * bytes) := r <- m ;; ret (r, []).

(** One call by session [thd] ([current_thd]); the result is the return
    code and the row buffer the call leaves to its caller. *)
Definition run (e : Env) (thd : nat) (c : Call) : M (Z * bytes) :=
  match c with
  | Create_handler t => h <- ldb_create_handler t ;; ret (Z.of_nat h, [])
  | Open h name => code (ha_ldb_open e h name)
  | Close h => code (ha_ldb_close h)
  | Write_row h buf => ha_ldb_write_row e thd h buf
  | Update_row h old_data new_data => ha_ldb_update_row e thd h old_data new_data
  | Delete_row h buf => code (ha_ldb_delete_row thd h buf)
  | Index_read h buf key key_len => ha_ldb_index_read e h buf key key_len
  | Index_next h buf => ha_ldb_index_next h buf
  | Index_prev h buf => ha_ldb_index_prev h buf
  | Index_first h buf => ha_ldb_index_first h buf
  | Index_last h buf => ha_ldb_index_last h buf
  | Rnd_init h scan => code (ha_ldb_rnd_init h scan)
  | Rnd_end h => code (ha_ldb_rnd_end h)
  | Rnd_next h buf => ha_ldb_rnd_next h buf
  | Rnd_pos h buf pos => ha_ldb_rnd_pos h buf pos
  | Position h record => ha_ldb_position h record ;; ret (0, [])
  | Info h flag => code (ha_ldb_info h flag)
  | Extra h operation => code (ha_ldb_extra h operation)
  | Delete_all_rows h => code (ha_ldb_delete_all_rows h)
  | Truncate h => code (ha_ldb_truncate h)
  | External_lock h lock_type => code (ha_ldb_external_lock e thd h lock_type)
  | Delete_table h name => code (ha_ldb_delete_table e h name)
  | Rename_table h from to => code (ha_ldb_rename_table h from to)
  | Records_in_range h inx => code (ha_ldb_records_in_range h inx)
  | Create h name table_arg => code (ha_ldb_create e thd h name table_arg)
  end.

(** ** The host's side of the protocol

    The server opens a handler instance once and closes it before it opens
    it again; [opened] is its table cache, the instances between their
    [open] and their [close].  It holds fewer than 2^32 of them. *)

Record Host := {
  engine : State;
  opened : gset nat }.

Record Request := {
  req_env : Env;
  req_thd : nat;
  req_call : Call }.

Definition allowed_call (hs : Host) (c : Call) : bool :=
  match c with
  | Open h _ =>
    bool_decide (h ∉ opened hs) && bool_decide (Z.of_nat (size (opened hs)) + 1 < UINT_MODULUS)
  | Close h => bool_decide (h ∈ opened hs)
  | _ => true
  end.

Definition host_step (hs : Host) (rq : Request) : option (Z * bytes * Host) :=
  if allowed_call hs (req_call rq) then
    match run (req_env rq) (req_thd rq) (req_call rq) (engine hs) with
    | Some (r, st') =>
      let o := match req_call rq with
               | Open h _ => if decide (r.1 = 0) then {[h]} ∪ opened hs else opened hs
               | Close h => opened hs ∖ {[h]}
               | _ => opened hs
               end in
      Some (r, {| engine := st'; opened := o |})
    | None => None
    end
  else None.

Fixpoint host_run (hs : Host) (rqs : list Request) : option Host :=
  match rqs with
  | [] => Some hs
  | rq :: rqs =>
    match host_step hs rq with
    | Some (_, hs') => host_run hs' rqs
    | None => None
    end
  end.

Definition initial_host : Host := {| engine := initial_state; opened := ∅ |}.

Definition reachable (hs : Host) : Prop :=
  ∃ rqs, host_run initial_host rqs = Some hs.

(** ** Classifying calls *)

Definition is_scan (c : Call) : bool :=
  match c with
  | Index_next _ _ | Index_prev _ _ | Index_first _ _ | Index_last _ _
  | Rnd_init _ _ | Rnd_end _ | Rnd_next _ _ | Rnd_pos _ _ _ => true
  | _ => false
  end.

(** The row buffer a call is given. *)
Definition row_buffer (c : Call) : bytes :=
  match c with
  | Write_row _ buf | Delete_row _ buf | Index_read _ buf _ _
  | Index_next _ buf | Index_prev _ buf | Index_first _ buf | Index_last _ buf
  | Rnd_next _ buf | Rnd_pos _ buf _ => buf
  | Update_row _ _ new_data => new_data
  | _ => []
  end.

Definition handler_of (c : Call) : option nat :=
  match c with
  | Create_handler _ => None
  | Open h _ | Close h | Write_row h _ | Update_row h _ _ | Delete_row h _
  | Index_read h _ _ _ | Index_next h _ | Index_prev h _ | Index_first h _
  | Index_last h _ | Rnd_init h _ | Rnd_end h | Rnd_next h _ | Rnd_pos h _ _
  | Position h _ | Info h _ | Extra h _ | Delete_all_rows h | Truncate h
  | External_lock h _ | Delete_table h _ | Rename_table h _ _
  | Records_in_range h _ | Create h _ _ => Some h
  end.


Definition is_write_event (ev : Event) : bool :=
  match ev with
  | EvWrite _ _ _ _ => true
  | _ => false
  end.

Definition is_unlock (c : Call) : bool :=
  match c with
  | External_lock _ lock_type => bool_decide (lock_type = F_UNLCK)
  | _ => false
  end.

Definition is_row_change (c : Call) : bool :=
  match c with
  | Write_row _ _ | Update_row _ _ _ | Delete_row _ _ => true
  | _ => false
  end.

Definition is_delete_table (c : Call) : bool :=
  match c with
  | Delete_table _ _ => true
  | _ => false
  end.

(** The state in which session [thd], whose transaction object was [trx],
    has [ops] appended to its batch, everything else as in [st]. *)
Definition staged (thd : nat) (trx : trx_t) (ops : WriteBatch) (st : State) : State :=
  set_ha_data <[thd := {| pobj := pobj trx; batch := batch trx ++ ops |}]> st.

(** ** The key codec in the specification's words *)

(** The width of the length prefix of a key part of the given type. *)
Definition spec_prefix_width (t : ha_base_keytype) : nat :=
  match t with
  | HA_KEYTYPE_VARTEXT1 | HA_KEYTYPE_VARBINARY1 => 1
  | HA_KEYTYPE_VARTEXT2 | HA_KEYTYPE_VARBINARY2 => 2
  | _ => 0
  end.

(** [row_buffer[offset+prefix_width : offset+prefix_width+declared_length]] *)
Definition spec_extract_key (row_buffer : bytes)
    (offset declared_length prefix_width : nat) : bytes :=
  take declared_length (drop (offset + prefix_width) row_buffer).

(** The prefix [index_read] drops from the host's key image. *)
Definition key_image_prefix (kp : KEY_PART_INFO) : nat :=
  if decide (Z.land (key_part_flag kp) HA_VAR_LENGTH_PART ≠ 0) then 2 else 0.

(** ** Sample inputs *)

(** A working store; rows too short for [my_compress] to pack them (it
    reports success and leaves the packet), which [my_uncompress] then
    rejects, leaving the buffer. *)
Definition sample_env : Env :=
  {| io_fault := kOk; malloc_fails := false; hash_insert_fails := false;
     my_compress := λ packet len, (false, packet, len, 0%nat);
     my_uncompress := λ packet len complen, (true, packet, complen) |}.

(** The same with a store that fails with an I/O error. *)
Definition failing_env : Env :=
  {| io_fault := kIOError; malloc_fails := false; hash_insert_fails := false;
     my_compress := my_compress sample_env;
     my_uncompress := my_uncompress sample_env |}.

(** A table with one fixed-length key of two bytes after the row's flag byte. *)
Definition sample_key_part : KEY_PART_INFO :=
  {| kp_offset := 1; kp_length := 2; kp_type := HA_KEYTYPE_TEXT; key_part_flag := 0 |}.

Definition sample_table : TABLE :=
  {| key_info := [ {| key_part := [sample_key_part] |} ];
     s := {| rec_buff_length := 4; key_parts := 1; uniques := 1 |};
     status := 0 |}.

Definition sample_handler : ha_ldb :=
  {| share := None; dbpath := ""; table := sample_table |}.

Definition sample_row : bytes := [x00; x61; x62; x63].
Definition other_row : bytes := [x00; x78; x79; x7a].

Definition request (e : Env) (c : Call) : Request :=
  {| req_env := e; req_thd := 7%nat; req_call := c |}.

(** Session 7 creates table "t", opens it through handler 0 and takes the
    table lock. *)
Definition sample_requests : list Request :=
  [ request sample_env (Create_handler sample_table);
    request sample_env (Create 0%nat "t" sample_table);
    request sample_env (Open 0%nat "t");
    request sample_env (External_lock 0%nat 1) ].

Definition sample_host : Host :=
  default initial_host (host_run initial_host sample_requests).

Definition sample_state : State := engine sample_host.

(** ** The share registry's invariant *)

(** The share a handler instance points to. *)
Definition share_of (st : State) (h : nat) : option nat :=
  o ← handlers st !! h; share o.

(** The number of open handler instances that point to share [p]. *)
Definition refcount (hs : Host) (p : nat) : nat :=
  size (filter (λ h, share_of (engine hs) h = Some p) (opened hs)).

Record registry_inv (hs : Host) : Prop := {
  inv_nodup : NoDup (ldb_open_tables (engine hs));
  inv_registered :
    ∀ p, p ∈ ldb_open_tables (engine hs) ↔ is_Some (shares (engine hs) !! p);
  inv_names :
    ∀ p q sp sq,
      shares (engine hs) !! p = Some sp → shares (engine hs) !! q = Some sq →
      table_name sp = table_name sq → p = q;
  inv_count :
    ∀ p sh, shares (engine hs) !! p = Some sh →
            use_count sh = Z.of_nat (refcount hs p) ∧ 0 < use_count sh;
  inv_opened :
    ∀ h, h ∈ opened hs →
         ∃ p, share_of (engine hs) h = Some p ∧ is_Some (shares (engine hs) !! p);
  inv_bound : Z.of_nat (size (opened hs)) < UINT_MODULUS;
  inv_fresh_share :
    ∀ p, is_Some (shares (engine hs) !! p) → (p < next_addr (engine hs))%nat;
  inv_fresh_handler :
    ∀ h, is_Some (handlers (engine hs) !! h) → (h < next_addr (engine hs))%nat;
  inv_sync :
    ∀ p, is_Some (shares (engine hs) !! p) → wo_sync (engine hs) = true }.


(** The calls that touch the registry or create a handler object. *)
Definition is_lifecycle (c : Call) : bool :=
  match c with
  | Create_handler _ | Open _ _ | Close _ => true
  | _ => false
  end.

(** Two handler objects for the sample table, none of them open. *)
Definition two_handlers : list Request :=
  [ request sample_env (Create_handler sample_table);
    request sample_env (Create_handler sample_table);
    request sample_env (Create 0%nat "t" sample_table) ].

Definition two_handlers_host : Host :=
  default initial_host (host_run initial_host two_handlers).

(** The sample session with one row staged. *)
Definition staged_host : Host :=
  default initial_host
    (host_run sample_host [request sample_env (Write_row 0%nat sample_row)]).

(** ** Later calls that leave a stored row alone *)





(** ** Proof automation *)

Create HintDb ldb discriminated.

#[local] Hint Unfold bind ret get modify deref undefined log alloc code : ldb.
#[local] Hint Unfold mysql_mutex_lock mysql_mutex_unlock my_hash_delete
  leveldb_open DB_Open DB_Get DB_Write DB_delete DestroyDB : ldb.
#[local] Hint Unfold get_share free_share ldb_create_handler free_trx this_handler
  current_trx batch_append : ldb.
#[local] Hint Unfold ha_ldb_open ha_ldb_close ha_ldb_write_row ha_ldb_update_row
  ha_ldb_delete_row ha_ldb_index_read ha_ldb_index_next ha_ldb_index_prev
  ha_ldb_index_first ha_ldb_index_last ha_ldb_rnd_init ha_ldb_rnd_end
  ha_ldb_rnd_next ha_ldb_position ha_ldb_rnd_pos ha_ldb_info ha_ldb_extra
  ha_ldb_delete_all_rows ha_ldb_truncate ha_ldb_external_lock ha_ldb_delete_table
  ha_ldb_rename_table ha_ldb_records_in_range ha_ldb_create : ldb.

(** Unfold the monadic code of a method down to matches on the state. *)
Ltac unfold_method := autounfold with ldb in *; cbn beta iota in *.

(** Split on the first test or lookup a hypothesis [H] is stuck on. *)
Ltac split_on H :=
  match type of H with
  | context [match ?x with _ => _ end] =>
    lazymatch x with
    | context [match _ with _ => _ end] => fail
    | _ => destruct x eqn:?
    end
  end.

(** Invert a returning call down to the state it leaves. *)
Ltac invert_run H :=
  unfold run in H; unfold_method;
  repeat (split_on H; try discriminate H);
  simplify_eq.

(** * Properties *)

Section Unlock.

Variables (e : Env) (thd h : nat) (st : State).

Lemma external_lock_unlock_unfold :
  ha_ldb_external_lock e thd h F_UNLCK st =
  match ha_data st !! thd with
  | None => Some (1, st)
  | Some trx =>
    (o <- deref (handlers st !! pobj trx) ;;
     p <- deref (share o) ;;
     sh <- deref (shares st !! p) ;;
     d <- deref (db sh) ;;
     st_w <- DB_Write e d (wo_sync st) (batch trx) ;;
     free_trx thd (Some trx) ;;
     ret (if ok st_w then 0 else 1)) st
  end.
Proof.
  unfold ha_ldb_external_lock at 1. unfold bind at 1, get at 1.
  destruct (decide (F_UNLCK ≠ F_UNLCK)) as [Hne|_]; [by destruct Hne|].
  by destruct (ha_data st !! thd).
Qed.

(** C10: releasing the lock in a session that has no transaction scope
    returns 1 and changes nothing: the state after the call is the state
    before it, so the store, its event log and the session's slot are
    untouched. *)
Theorem unlock_without_scope :
  ha_data st !! thd = None →
  ha_ldb_external_lock e thd h F_UNLCK st = Some (1, st).
Proof. intros Hnone. by rewrite external_lock_unlock_unfold, Hnone. Qed.

End Unlock.

(** ** Scans and index traversal *)

(** C6: every scan and index-traversal method ([index_next], [index_prev],
    [index_first], [index_last], [rnd_init], [rnd_end], [rnd_next],
    [rnd_pos]) called on an existing handler returns, its code is
    HA_ERR_WRONG_COMMAND or HA_ERR_END_OF_FILE (never 0), the caller's row
    buffer is left as it was, and neither the store nor its event log
    changes. *)
Theorem scans_unsupported (e : Env) (thd : nat) (c : Call) (st : State) (h : nat) :
  is_scan c = true →
  handler_of c = Some h →
  is_Some (handlers st !! h) →
  ∃ rc st',
    run e thd c st = Some (rc, row_buffer c, st')
    ∧ (rc = HA_ERR_WRONG_COMMAND ∨ rc = HA_ERR_END_OF_FILE)
    ∧ rc ≠ 0
    ∧ disk st' = disk st ∧ trace st' = trace st.
Proof.
  intros Hscan Hh [o Ho].
  destruct c; try discriminate Hscan; simpl in Hh; simplify_eq;
    unfold run; unfold_method; rewrite ?Ho; simpl;
    eexists _, _; (split; [reflexivity|]); simpl;
    unfold HA_ERR_WRONG_COMMAND, HA_ERR_END_OF_FILE; auto with lia.
Qed.

(** ** Opening the store *)

Lemma leveldb_open_failure (e : Env) (name : string) (cim : bool) (st : State) :
  ok (io_fault e) = false →
  leveldb_open e name cim st =
  Some ((io_fault e, None),
        set_wo_sync (λ _, true)
          (set_trace (λ t, t ++ [EvOpen name cim 33554432 (io_fault e)])
             (set_options_create_if_missing (λ _, cim)
                (set_options_write_buffer_size (λ _, 33554432) st)))).
Proof. intros Hf. unfold_method. simpl. by rewrite !Hf. Qed.

Lemma leveldb_open_result (e : Env) (name : string) (cim : bool) (st : State) :
  ∃ r d st',
    leveldb_open e name cim st = Some ((r, d), st')
    ∧ trace st' = trace st ++ [EvOpen name cim 33554432 r]
    ∧ (ok r = false → d = None)
    ∧ (ok r = true → is_Some d)
    ∧ (ok (io_fault e) = false → r = io_fault e)
    ∧ wo_sync st' = true
    ∧ shares st' = shares st ∧ handlers st' = handlers st
    ∧ ha_data st' = ha_data st ∧ ldb_open_tables st' = ldb_open_tables st
    ∧ ldb_mutex st' = ldb_mutex st
    ∧ (∀ n, contents st' n = contents st n).
Proof.
  unfold_method. simpl.
  set (r := if ok (io_fault e) then _ else _).
  destruct (ok r) eqn:Hr; eexists r, _, _; (split; [reflexivity|]); simpl;
    repeat split; try done; try (intros; congruence); try by eauto.
  - intros Hf. subst r. by rewrite Hf.
  - intros n. unfold contents. simpl.
    destruct (decide (name = n)) as [->|Hne].
    + rewrite lookup_insert_eq. by destruct (disk st !! n).
    + by rewrite lookup_insert_ne.
  - intros Hf. subst r. by rewrite Hf.
Qed.

(** C4: [create] returns HA_ERR_WRONG_INDEX, and opens nothing, for every
    table definition whose number of key parts or of unique keys is not 1;
    for a definition with one key part and one unique key it calls
    [leveldb_open] for the table's name with create_if_missing set, and
    returns 0 exactly when that open reports ok. *)
Theorem create_checks_schema (e : Env) (thd h : nat) (name : string)
    (table_arg : TABLE) (st : State) :
  is_Some (handlers st !! h) →
  (key_parts (s table_arg) ≠ 1 ∨ uniques (s table_arg) ≠ 1 →
   ∃ st', ha_ldb_create e thd h name table_arg st = Some (HA_ERR_WRONG_INDEX, st')
          ∧ HA_ERR_WRONG_INDEX ≠ 0
          ∧ my_errno st' !! thd = Some HA_ERR_WRONG_INDEX
          ∧ trace st' = trace st ∧ disk st' = disk st ∧ dbs st' = dbs st)
  ∧ (key_parts (s table_arg) = 1 ∧ uniques (s table_arg) = 1 →
     ∃ rc r st', ha_ldb_create e thd h name table_arg st = Some (rc, st')
                 ∧ trace st' = trace st ++ [EvOpen name true 33554432 r]
                 ∧ (rc = 0 ↔ ok r = true)).
Proof.
  intros [o Ho]. split.
  - intros Hbad. unfold ha_ldb_create, this_handler. unfold bind at 1 2, get, deref.
    rewrite Ho. unfold ret at 1.
    destruct (decide _) as [_|Hgood]; [|tauto].
    eexists. split; [reflexivity|]. simpl. rewrite lookup_insert_eq. done.
  - intros [Hk Hu]. unfold ha_ldb_create, this_handler. unfold bind at 1 2, get, deref.
    rewrite Ho. unfold ret at 1.
    destruct (decide _) as [[?|?]|_]; [done..|].
    unfold bind at 1, modify at 1.
    destruct (leveldb_open_result e name true
                (set_handlers <[h:=set_dbpath o name]> st))
      as (r & d & st' & Hopen & Htr & _).
    unfold bind at 1. rewrite Hopen. unfold ret.
    eexists _, r, _. split; [reflexivity|]. split; [done|].
    simpl. destruct (ok r); split; intros; congruence.
Qed.

Lemma leveldb_open_missing (e : Env) (name : string) (st : State) :
  ok (io_fault e) = true → disk st !! name = None →
  leveldb_open e name false st =
  Some ((kInvalidArgument, None),
        set_wo_sync (λ _, true)
          (set_trace (λ t, t ++ [EvOpen name false 33554432 kInvalidArgument])
             (set_options_create_if_missing (λ _, false)
                (set_options_write_buffer_size (λ _, 33554432) st)))).
Proof. intros Hf Hd. unfold_method. simpl. by rewrite !Hf, !Hd. Qed.

(** C2 (the code departs from it): [open] of a table that is not yet
    registered returns 0 although LevelDB reports a failure on opening
    the database (an injected fault, or a database that does not exist,
    as [get_share] opens without create_if_missing): [get_share] stores
    the status of [leveldb_open] in a variable it never reads, registers
    the share with a NULL database handle and hands it to the handler. *)
Theorem open_ignores_store_failure (e : Env) (h : nat) (name : string) (st : State) :
  is_Some (handlers st !! h) →
  ldb_mutex st = false →
  my_hash_search st name = None →
  malloc_fails e = false →
  hash_insert_fails e = false →
  ok (io_fault e) = false ∨ disk st !! name = None →
  ∃ st' o r,
    ha_ldb_open e h name st = Some (0, st')
    ∧ ok r = false
    ∧ trace st' = trace st ++ [EvOpen name false 33554432 r]
    ∧ handlers st' !! h = Some o
    ∧ share o = Some (next_addr st)
    ∧ shares st' !! next_addr st
      = Some {| table_name := name; use_count := 1; db := None |}.
Proof.
  intros [o Ho] Hmx Hsearch Hmalloc Hins Hfail.
  unfold ha_ldb_open, this_handler. unfold bind at 1 2, get, deref.
  rewrite Ho. unfold ret at 1.
  unfold get_share, mysql_mutex_lock. unfold bind at 1 2 3, get at 1.
  rewrite Hmx. unfold modify at 1, bind at 1, get at 1.
  replace (my_hash_search (set_ldb_mutex (λ _, true) st) name) with (@None nat)
    by (symmetry; exact Hsearch).
  rewrite Hmalloc. unfold bind at 1, alloc. unfold bind at 1 2, get, modify at 1, ret at 1.
  unfold bind at 1.
  destruct (ok (io_fault e)) eqn:Hio.
  - destruct Hfail as [Hfail|Hmissing]; [done|].
    rewrite leveldb_open_missing by done.
    rewrite Hins. unfold_method. simpl.
    eexists _, _, kInvalidArgument. split; [reflexivity|]. simpl.
    rewrite !lookup_insert_eq. done.
  - rewrite leveldb_open_failure by done.
    rewrite Hins. unfold_method. simpl.
    eexists _, _, (io_fault e). split; [reflexivity|]. simpl.
    rewrite !lookup_insert_eq. done.
Qed.

(** ** Staging and committing *)

Lemma set_ha_data_twice (f g : gmap nat trx_t → gmap nat trx_t) (st : State) :
  set_ha_data f (set_ha_data g st) = set_ha_data (f ∘ g) st.
Proof. by destruct st. Qed.

Lemma staged_twice (thd : nat) (trx : trx_t) (ops1 ops2 : WriteBatch) (st : State) :
  set_ha_data <[thd := {| pobj := pobj trx; batch := (batch trx ++ ops1) ++ ops2 |}]>
    (staged thd trx ops1 st)
  = staged thd trx (ops1 ++ ops2) st.
Proof.
  unfold staged. rewrite set_ha_data_twice. destruct st; unfold set_ha_data; simpl.
  f_equal. by rewrite insert_insert_eq, app_assoc.
Qed.


Lemma batch_append_ok (thd : nat) (o : BatchOp) (st : State) (trx : trx_t) :
  ha_data st !! thd = Some trx →
  batch_append thd o st = Some (tt, staged thd trx [o] st).
Proof. intros Htrx. unfold_method. by rewrite Htrx. Qed.

Lemma write_row_ok (e : Env) (thd h : nat) (buf : bytes) (st : State)
    (this : ha_ldb) (trx : trx_t) (key value buf' : bytes)
    (failed : bool) (raw_len compressed_len : nat) :
  handlers st !! h = Some this →
  get_key this buf [] = Some key →
  (rec_buff_length (s (table this)) ≤ length buf)%nat →
  my_compress e buf (rec_buff_length (s (table this)))
    = (failed, buf', raw_len, compressed_len) →
  read_bytes buf' 0 raw_len = Some value →
  ha_data st !! thd = Some trx →
  ha_ldb_write_row e thd h buf st
    = Some ((0, buf'), staged thd trx [Put key value] st).
Proof.
  intros Hh Hkey Hlen Hcomp Hval Htrx.
  unfold ha_ldb_write_row, this_handler. unfold bind at 1 2, get, deref.
  rewrite Hh. unfold ret at 1. unfold bind at 1. rewrite Hkey. unfold ret at 1.
  unfold bind at 1, read_bytes at 1.
  rewrite decide_True by (simpl; lia). unfold ret at 1.
  rewrite Hcomp. unfold bind at 1. rewrite Hval. unfold ret at 1.
  unfold bind at 1. by rewrite (batch_append_ok _ _ _ trx).
Qed.

Lemma delete_row_ok (thd h : nat) (buf : bytes) (st : State)
    (this : ha_ldb) (trx : trx_t) (key : bytes) :
  handlers st !! h = Some this →
  get_key this buf [] = Some key →
  ha_data st !! thd = Some trx →
  ha_ldb_delete_row thd h buf st = Some (0, staged thd trx [Delete key] st).
Proof.
  intros Hh Hkey Htrx.
  unfold ha_ldb_delete_row, this_handler. unfold bind at 1 2, get, deref.
  rewrite Hh. unfold ret at 1. unfold bind at 1. rewrite Hkey. unfold ret at 1.
  unfold bind at 1. by rewrite (batch_append_ok _ _ _ trx).
Qed.

Lemma update_row_ok (e : Env) (thd h : nat) (old_data new_data : bytes) (st : State)
    (this : ha_ldb) (trx : trx_t) (old_key new_key value buf' : bytes)
    (failed : bool) (raw_len compressed_len : nat) :
  handlers st !! h = Some this →
  get_key this old_data [] = Some old_key →
  get_key this new_data [] = Some new_key →
  (rec_buff_length (s (table this)) ≤ length new_data)%nat →
  my_compress e new_data (rec_buff_length (s (table this)))
    = (failed, buf', raw_len, compressed_len) →
  read_bytes buf' 0 raw_len = Some value →
  ha_data st !! thd = Some trx →
  ha_ldb_update_row e thd h old_data new_data st
    = Some ((0, buf'),
            staged thd trx
              (if decide (old_key = new_key) then [Put new_key value]
               else [Delete old_key; Put new_key value]) st).
Proof.
  intros Hh Hold Hnew Hlen Hcomp Hval Htrx.
  unfold ha_ldb_update_row, this_handler. unfold bind at 1 2, get, deref.
  rewrite Hh. unfold ret at 1. unfold bind at 1. rewrite Hold. unfold ret at 1.
  unfold bind at 1. rewrite Hnew. unfold ret at 1.
  unfold bind at 1.
  destruct (decide (old_key ≠ new_key)) as [Hne|Heq].
  - rewrite (batch_append_ok _ _ _ trx) by done.
    unfold bind at 1.
    erewrite (write_row_ok e thd h new_data (staged thd trx [Delete old_key] st));
      [| exact Hh | exact Hnew | exact Hlen | exact Hcomp | exact Hval
       | apply lookup_insert_eq ].
    unfold ret. simpl. rewrite decide_False by done.
    unfold staged at 1. simpl. by rewrite staged_twice.
  - apply dec_stable in Heq. subst new_key. unfold ret at 1.
    unfold bind at 1.
    erewrite write_row_ok by eauto.
    unfold ret. simpl. by rewrite decide_True.
Qed.

(** ** Keys *)

Lemma get_key_slice (this : ha_ldb) (buf : bytes) (kp : KEY_PART_INFO) :
  first_key_part (table this) = Some kp →
  (kp_offset kp + spec_prefix_width (kp_type kp) + kp_length kp ≤ length buf)%nat →
  get_key this buf []
  = Some (spec_extract_key buf (kp_offset kp) (kp_length kp)
            (spec_prefix_width (kp_type kp))).
Proof.
  intros Hkp Hlen. unfold get_key. rewrite Hkp. simpl.
  assert ((if bool_decide (kp_type kp = HA_KEYTYPE_VARTEXT2
                           ∨ kp_type kp = HA_KEYTYPE_VARBINARY2)
           then 2%nat
           else if bool_decide (kp_type kp = HA_KEYTYPE_VARTEXT1
                                ∨ kp_type kp = HA_KEYTYPE_VARBINARY1)
                then 1%nat else 0%nat) = spec_prefix_width (kp_type kp)) as ->.
  { destruct (kp_type kp); reflexivity. }
  unfold read_bytes. rewrite decide_True by lia. reflexivity.
Qed.

Lemma spec_extract_key_length (buf : bytes) (off len pw : nat) :
  (off + pw + len ≤ length buf)%nat →
  length (spec_extract_key buf off len pw) = len.
Proof.
  intros Hlen. unfold spec_extract_key. rewrite length_take, length_drop. lia.
Qed.

Lemma spec_extract_key_lookup (buf : bytes) (off len pw i : nat) :
  (i < len)%nat →
  spec_extract_key buf off len pw !! i = buf !! (off + pw + i)%nat.
Proof.
  intros Hi. unfold spec_extract_key.
  rewrite lookup_take_lt by done. by rewrite lookup_drop.
Qed.

Lemma index_read_key_slice (this : ha_ldb) (key : bytes) (key_len : Z)
    (kp : KEY_PART_INFO) :
  first_key_part (table this) = Some kp →
  Z.of_nat (key_image_prefix kp) ≤ key_len < UINT_MODULUS →
  (Z.to_nat key_len ≤ length key)%nat →
  index_read_key this key key_len
  = Some (take (Z.to_nat key_len - key_image_prefix kp)
               (drop (key_image_prefix kp) key)).
Proof.
  intros Hkp Hrange Hlen. unfold index_read_key, key_image_prefix in *.
  rewrite Hkp. simpl.
  destruct (decide (Z.land (key_part_flag kp) HA_VAR_LENGTH_PART ≠ 0)); simpl in *.
  - rewrite Z.mod_small by lia. unfold read_bytes.
    rewrite decide_True by lia. do 2 f_equal. lia.
  - rewrite Z.mod_small by lia. unfold read_bytes.
    rewrite decide_True by lia. do 2 f_equal. lia.
Qed.

Lemma batch_append_none (thd : nat) (o : BatchOp) (st : State) :
  ha_data st !! thd = None → batch_append thd o st = None.
Proof. intros Htrx. unfold_method. by rewrite Htrx. Qed.

(** What a returning row change has done. *)
Lemma write_row_inv (e : Env) (thd h : nat) (buf : bytes) (st st' : State)
    (r : Z * bytes) :
  ha_ldb_write_row e thd h buf st = Some (r, st') →
  ∃ this trx key value,
    handlers st !! h = Some this ∧ get_key this buf [] = Some key
    ∧ ha_data st !! thd = Some trx
    ∧ read_bytes r.2 0 (my_compress e buf (rec_buff_length (s (table this)))).1.2
      = Some value
    ∧ r = (0, (my_compress e buf (rec_buff_length (s (table this)))).1.1.2)
    ∧ st' = staged thd trx [Put key value] st.
Proof.
  intros Hrun. unfold_method.
  repeat (split_on Hrun; try discriminate Hrun). simplify_eq.
  eexists _, _, _, _. split_and!; try done. simpl.
  all: match goal with H : my_compress _ _ _ = _ |- _ => rewrite H end.
  all: done.
Qed.

Lemma delete_row_inv (thd h : nat) (buf : bytes) (st st' : State) (r : Z) :
  ha_ldb_delete_row thd h buf st = Some (r, st') →
  ∃ this trx key,
    handlers st !! h = Some this ∧ get_key this buf [] = Some key
    ∧ ha_data st !! thd = Some trx
    ∧ r = 0 ∧ st' = staged thd trx [Delete key] st.
Proof.
  intros Hrun. unfold_method.
  repeat (split_on Hrun; try discriminate Hrun). simplify_eq.
  by eexists _, _, _.
Qed.

Lemma update_row_inv (e : Env) (thd h : nat) (old_data new_data : bytes)
    (st st' : State) (r : Z * bytes) :
  ha_ldb_update_row e thd h old_data new_data st = Some (r, st') →
  ∃ this trx old_key new_key value,
    handlers st !! h = Some this
    ∧ get_key this old_data [] = Some old_key
    ∧ get_key this new_data [] = Some new_key
    ∧ ha_data st !! thd = Some trx
    ∧ r.1 = 0
    ∧ st' = staged thd trx
              (if decide (old_key = new_key) then [Put new_key value]
               else [Delete old_key; Put new_key value]) st.
Proof.
  intros Hrun. unfold ha_ldb_update_row, this_handler in Hrun.
  unfold bind at 1 2, get, deref in Hrun.
  destruct (handlers st !! h) as [this|] eqn:Hh; [|done].
  unfold ret at 1, bind at 1 in Hrun.
  destruct (get_key this old_data []) as [old_key|] eqn:Hold; [|done].
  unfold ret at 1, bind at 1 in Hrun.
  destruct (get_key this new_data []) as [new_key|] eqn:Hnew; [|done].
  unfold ret at 1, bind at 1 in Hrun.
  destruct (decide (old_key ≠ new_key)) as [Hne|Heq].
  - destruct (ha_data st !! thd) as [trx|] eqn:Htrx;
      [|by rewrite batch_append_none in Hrun].
    rewrite (batch_append_ok _ _ _ trx) in Hrun by done.
    unfold bind at 1 in Hrun.
    destruct (ha_ldb_write_row _ _ _ _ _) as [[r1 st1]|] eqn:Hw; [|done].
    apply write_row_inv in Hw
      as (this' & trx' & key & value & Hh' & Hkey & Htrx' & _ & _ & ->).
    simpl in Hh', Htrx'. rewrite lookup_insert_eq in Htrx'. simplify_eq.
    unfold ret in Hrun. simplify_eq.
    eexists _, _, old_key, new_key, value. split_and!; try done.
    rewrite decide_False by done. simpl.
    by rewrite <- (staged_twice thd trx [Delete old_key] [Put new_key value]).
  - apply dec_stable in Heq. subst new_key.
    unfold ret at 1, bind at 1 in Hrun.
    destruct (ha_ldb_write_row _ _ _ _ _) as [[r1 st1]|] eqn:Hw; [|done].
    apply write_row_inv in Hw
      as (this' & trx' & key & value & Hh' & Hkey & Htrx' & _ & _ & ->).
    unfold ret in Hrun. simplify_eq.
    eexists _, _, old_key, old_key, value. split_and!; try done.
    by rewrite decide_True.
Qed.

Lemma index_read_inv (e : Env) (h : nat) (buf key : bytes) (key_len : Z)
    (st st' : State) (r : Z * bytes) :
  ha_ldb_index_read e h buf key key_len st = Some (r, st') →
  ∃ this skey d res,
    handlers st !! h = Some this
    ∧ index_read_key this key key_len = Some skey
    ∧ trace st' = trace st ++ [EvGet d skey res]
    ∧ disk st' = disk st.
Proof.
  intros Hrun. unfold_method.
  repeat (split_on Hrun; try discriminate Hrun); simplify_eq; simpl;
    by eexists _, _, _, _.
Qed.

Lemma touch_contents (dk : gmap string (gmap bytes bytes)) (name n : string) :
  default ∅ (<[name := default ∅ (dk !! name)]> dk !! n) = default ∅ (dk !! n).
Proof.
  destruct (decide (name = n)) as [->|Hne].
  - by rewrite lookup_insert_eq.
  - by rewrite lookup_insert_ne.
Qed.

(** The events of one call, and what it can do to the stored rows. *)
Lemma run_effects (e : Env) (thd : nat) (c : Call) (st st' : State) (r : Z * bytes) :
  run e thd c st = Some (r, st') →
  ∃ evs, trace st' = trace st ++ evs
         ∧ (is_unlock c = false → Forall (λ ev, is_write_event ev = false) evs)
         ∧ (is_unlock c = false → is_delete_table c = false →
            ∀ n, contents st' n = contents st n).
Proof.
  intros Hrun.
  destruct c; invert_run Hrun; simpl.
  all: try (exists []; rewrite app_nil_r; split_and!; by auto).
  all: try (eexists [_]; split_and!; [reflexivity| |]; intros; try done;
            repeat constructor; done).
  all: try (eexists [_]; split_and!; [reflexivity| |]; intros;
            [repeat constructor; done | unfold contents; simpl; apply touch_contents]).
  all: eexists [_]; split_and!; [reflexivity| |]; intros Hno; by case_bool_decide.
Qed.

(** C3: [update_row] returns 0 and appends to the session's batch the
    Delete of the old row's key immediately followed by the Put of the new
    row's key and stored value when the two extracted keys differ, and the
    Put alone when they are equal; nothing else of the state changes. *)
Theorem update_row_stages (e : Env) (thd h : nat) (old_data new_data : bytes)
    (st : State) (this : ha_ldb) (trx : trx_t) (old_key new_key value buf' : bytes)
    (failed : bool) (raw_len compressed_len : nat) :
  handlers st !! h = Some this →
  get_key this old_data [] = Some old_key →
  get_key this new_data [] = Some new_key →
  (rec_buff_length (s (table this)) ≤ length new_data)%nat →
  my_compress e new_data (rec_buff_length (s (table this)))
    = (failed, buf', raw_len, compressed_len) →
  read_bytes buf' 0 raw_len = Some value →
  ha_data st !! thd = Some trx →
  ∃ st' ops,
    ha_ldb_update_row e thd h old_data new_data st = Some ((0, buf'), st')
    ∧ st' = staged thd trx ops st
    ∧ ha_data st' !! thd = Some {| pobj := pobj trx; batch := batch trx ++ ops |}
    ∧ (old_key ≠ new_key → ops = [Delete old_key; Put new_key value])
    ∧ (old_key = new_key → ops = [Put new_key value]).
Proof.
  intros Hh Hold Hnew Hlen Hcomp Hval Htrx.
  eexists _, _. split; [by eapply update_row_ok|].
  split; [reflexivity|]. split; [apply lookup_insert_eq|].
  split; intros Hk; [by rewrite decide_False | by rewrite decide_True].
Qed.

Lemma update_row_stages_witness :
  ∃ st' ops,
    ha_ldb_update_row sample_env 7 0 sample_row other_row sample_state
      = Some ((0, other_row), st')
    ∧ st' = staged 7 {| pobj := 0%nat; batch := [] |} ops sample_state
    ∧ ha_data st' !! 7%nat = Some {| pobj := 0%nat; batch := [] ++ ops |}
    ∧ ([x61; x62] ≠ [x78; x79] →
       ops = [Delete [x61; x62]; Put [x78; x79] other_row])
    ∧ ([x61; x62] = [x78; x79] → ops = [Put [x78; x79] other_row]).
Proof.
  apply (update_row_stages sample_env 7 0 sample_row other_row sample_state
           (set_share (set_dbpath sample_handler "t") (Some 2%nat))
           {| pobj := 0%nat; batch := [] |} [x61; x62] [x78; x79] other_row
           other_row false 4 0);
    vm_compute; first [reflexivity | lia].
Defined.

(** C8, as stated, fails for point lookups: on the sample table (a fixed
    two-byte key after the row's flag byte) [get_key] takes bytes 1..2 of a
    buffer, while [index_read] takes the buffer from its first byte, for
    whatever key length it is given. *)
Lemma lookup_key_rule_differs :
  get_key sample_handler sample_row [] = Some [x61; x62]
  ∧ ∀ key_len, index_read_key sample_handler sample_row key_len
               ≠ get_key sample_handler sample_row [].
Proof.
  split; [reflexivity|]. intros key_len.
  change (get_key sample_handler sample_row []) with (Some [x61; x62]).
  unfold index_read_key. simpl. unfold read_bytes.
  case_decide; [|done]. intros [= Heq].
  destruct (Z.to_nat ((key_len - 0) `mod` UINT_MODULUS)) as [|[|[|[|[|n]]]]];
    simpl in Heq; discriminate Heq.
Qed.

(** C8, amended: [get_key] returns
    [row_buffer[offset+prefix_width : offset+prefix_width+declared_length]]
    with prefix width 1 for the one-byte variable-length key types, 2 for
    the two-byte ones and 0 otherwise; [write_row], [update_row] and
    [delete_row] key every operation they stage by [get_key] of the row.
    [index_read] does not use [get_key]: from the host's key image it
    drops 2 bytes when the key part is flagged variable-length and none
    otherwise, and looks up the remaining [key_len - prefix] bytes. *)
Theorem key_extraction (this : ha_ldb) (kp : KEY_PART_INFO) :
  first_key_part (table this) = Some kp →
  (∀ buf,
     (kp_offset kp + spec_prefix_width (kp_type kp) + kp_length kp ≤ length buf)%nat →
     get_key this buf []
     = Some (spec_extract_key buf (kp_offset kp) (kp_length kp)
               (spec_prefix_width (kp_type kp))))
  ∧ (∀ e thd h st st' r, handlers st !! h = Some this →
       (∀ buf, ha_ldb_write_row e thd h buf st = Some (r, st') →
          ∃ trx key value, get_key this buf [] = Some key
                           ∧ st' = staged thd trx [Put key value] st)
       ∧ (∀ buf, ha_ldb_delete_row thd h buf st = Some (r.1, st') →
            ∃ trx key, get_key this buf [] = Some key
                       ∧ st' = staged thd trx [Delete key] st)
       ∧ (∀ old_data new_data,
            ha_ldb_update_row e thd h old_data new_data st = Some (r, st') →
            ∃ trx old_key new_key value,
              get_key this old_data [] = Some old_key
              ∧ get_key this new_data [] = Some new_key
              ∧ st' = staged thd trx
                        (if decide (old_key = new_key) then [Put new_key value]
                         else [Delete old_key; Put new_key value]) st)
       ∧ (∀ buf key key_len,
            ha_ldb_index_read e h buf key key_len st = Some (r, st') →
            ∃ skey d res,
              index_read_key this key key_len = Some skey
              ∧ trace st' = trace st ++ [EvGet d skey res]
              ∧ (Z.of_nat (key_image_prefix kp) ≤ key_len < UINT_MODULUS →
                 (Z.to_nat key_len ≤ length key)%nat →
                 skey = take (Z.to_nat key_len - key_image_prefix kp)
                             (drop (key_image_prefix kp) key)))).
Proof.
  intros Hkp. split; [intros buf Hlen; by apply get_key_slice|].
  intros e thd h st st' r Hh. split_and!.
  - intros buf Hrun.
    apply write_row_inv in Hrun as (this' & trx & key & value & Hh' & Hk & _ & _ & _ & ->).
    simplify_eq. by eexists _, _, _.
  - intros buf Hrun.
    apply delete_row_inv in Hrun as (this' & trx & key & Hh' & Hk & _ & _ & ->).
    simplify_eq. by eexists _, _.
  - intros old_data new_data Hrun.
    apply update_row_inv in Hrun
      as (this' & trx & old_key & new_key & value & Hh' & Hold & Hnew & _ & _ & ->).
    simplify_eq. by eexists _, _, _, _.
  - intros buf key key_len Hrun.
    apply index_read_inv in Hrun as (this' & skey & d & res & Hh' & Hk & Htr & _).
    simplify_eq. eexists _, _, _. split_and!; [done..|].
    intros Hrange Hlen.
    rewrite (index_read_key_slice _ _ _ kp) in Hk by done. by simplify_eq.
Qed.

Lemma key_extraction_witness :
  get_key sample_handler sample_row []
  = Some (spec_extract_key sample_row 1 2 0).
Proof.
  apply (proj1 (key_extraction sample_handler sample_key_part eq_refl) sample_row).
  vm_compute. lia.
Defined.

(** C9: the store is written at unlock only.  Whatever call returns, the
    events it adds to the store's log contain a [Write] only if the call is
    [external_lock] with F_UNLCK, and apart from that call and a table
    drop no call changes the contents of any database; [write_row],
    [update_row] and [delete_row] add no event at all and leave the state
    as it was except for the operations they append to the session's
    batch. *)
Theorem store_written_at_unlock_only (e : Env) (thd : nat) (c : Call)
    (st st' : State) (r : Z * bytes) :
  run e thd c st = Some (r, st') →
  (∃ evs, trace st' = trace st ++ evs
          ∧ (is_unlock c = false → Forall (λ ev, is_write_event ev = false) evs)
          ∧ (is_unlock c = false → is_delete_table c = false →
             ∀ n, contents st' n = contents st n))
  ∧ (is_row_change c = true →
     ∃ trx ops, ha_data st !! thd = Some trx ∧ ops ≠ []
                ∧ st' = staged thd trx ops st
                ∧ trace st' = trace st ∧ disk st' = disk st).
Proof.
  intros Hrun. split; [by eapply run_effects|].
  intros Hc. destruct c; try discriminate Hc; clear Hc; simpl in Hrun.
  - apply write_row_inv in Hrun as (? & trx & ? & ? & _ & _ & Htrx & _ & _ & ->).
    by eexists trx, [_].
  - apply update_row_inv in Hrun as (? & trx & k1 & k2 & ? & _ & _ & _ & Htrx & _ & ->).
    eexists trx, _. split_and!; [done| |reflexivity|done|done].
    by case_decide.
  - unfold code in Hrun. unfold bind in Hrun.
    destruct (ha_ldb_delete_row _ _ _ _) as [[rc st1]|] eqn:Hd; [|done].
    unfold ret in Hrun. simplify_eq.
    apply delete_row_inv in Hd as (? & trx & ? & _ & _ & Htrx & _ & ->).
    by eexists trx, [_].
Qed.

Lemma store_written_at_unlock_only_witness :
  ∃ st',
    run sample_env 7 (Write_row 0 sample_row) sample_state
      = Some ((0, sample_row), st')
    ∧ trace st' = trace sample_state ∧ disk st' = disk sample_state.
Proof.
  eexists. split; [vm_compute; reflexivity|].
  destruct (store_written_at_unlock_only sample_env 7 (Write_row 0 sample_row)
              sample_state _ (0, sample_row) ltac:(vm_compute; reflexivity))
    as [_ Hrow].
  destruct (Hrow eq_refl) as (trx & ops & _ & _ & _ & Htr & Hdk).
  by split.
Defined.

(** ** The share registry *)

Section Counting.

Context (P : nat → Prop) `{!∀ x, Decision (P x)}.

Lemma size_filter_le (X : gset nat) : (size (filter P X) ≤ size X)%nat.
Proof. apply subseteq_size. intros x. rewrite elem_of_filter. tauto. Qed.

Lemma size_filter_singleton (h : nat) :
  size (filter P ({[h]} : gset nat)) = if decide (P h) then 1%nat else 0%nat.
Proof.
  case_decide as HP.
  - replace (filter P ({[h]} : gset nat)) with ({[h]} : gset nat);
      [apply size_singleton|].
    apply set_eq. intros x. rewrite elem_of_filter, elem_of_singleton.
    split; [by intros ->|tauto].
  - replace (filter P ({[h]} : gset nat)) with (∅ : gset nat);
      [apply size_empty|].
    apply set_eq. intros x.
    rewrite elem_of_filter, elem_of_singleton, elem_of_empty.
    split; [tauto|]. by intros [? ->].
Qed.

Lemma size_filter_split (X : gset nat) (h : nat) :
  h ∈ X →
  size (filter P X)
  = ((if decide (P h) then 1 else 0) + size (filter P (X ∖ {[h]})))%nat.
Proof.
  intros Hh.
  assert (X = {[h]} ∪ X ∖ {[h]}) as HX.
  { apply set_eq. intros x.
    rewrite elem_of_union, elem_of_difference, elem_of_singleton.
    destruct (decide (x = h)) as [->|]; tauto. }
  rewrite HX at 1. rewrite filter_union_L, size_union.
  - by rewrite size_filter_singleton.
  - intros x. rewrite !elem_of_filter, elem_of_difference, elem_of_singleton. tauto.
  - apply _.
Qed.

Lemma size_filter_add (X : gset nat) (h : nat) :
  h ∉ X →
  size (filter P ({[h]} ∪ X))
  = ((if decide (P h) then 1 else 0) + size (filter P X))%nat.
Proof.
  intros Hh. rewrite filter_union_L, size_union.
  - by rewrite size_filter_singleton.
  - intros x. rewrite !elem_of_filter, elem_of_singleton. by intros [_ ->] [_ ?].
  - apply _.
Qed.

End Counting.

Lemma filter_agree (P Q : nat → Prop) `{!∀ x, Decision (P x)} `{!∀ x, Decision (Q x)}
    (X : gset nat) :
  (∀ x, x ∈ X → P x ↔ Q x) → filter P X = filter Q X.
Proof.
  intros HPQ. apply set_eq. intros x. rewrite !elem_of_filter.
  specialize (HPQ x). tauto.
Qed.

(** Calls other than [open], [close] and handler creation leave the
    registry and every handler's share pointer alone. *)
Lemma run_frame (e : Env) (thd : nat) (c : Call) (st st' : State) (r : Z * bytes) :
  is_lifecycle c = false →
  run e thd c st = Some (r, st') →
  shares st' = shares st
  ∧ ldb_open_tables st' = ldb_open_tables st
  ∧ (∀ h, share_of st' h = share_of st h)
  ∧ (∀ h, is_Some (handlers st' !! h) ↔ is_Some (handlers st !! h))
  ∧ (next_addr st ≤ next_addr st')%nat
  ∧ (wo_sync st = true → wo_sync st' = true)
  ∧ ldb_mutex st' = ldb_mutex st.
Proof.
  intros Hc Hrun.
  destruct c; try discriminate Hc; clear Hc; invert_run Hrun; simpl.
  all: split_and!; try done; try lia.
  all: try (intros h'; unfold share_of; simpl;
            destruct (decide (h = h')) as [->|Hne];
            [rewrite lookup_insert_eq;
             match goal with H : handlers _ !! _ = Some _ |- _ => rewrite H end; done
            |by rewrite lookup_insert_ne]).
  all: try (intros h'; destruct (decide (h = h')) as [->|Hne];
            [rewrite lookup_insert_eq;
             match goal with H : handlers _ !! _ = Some _ |- _ => rewrite H end;
             split; eauto
            |by rewrite lookup_insert_ne]).
Qed.

Lemma refcount_agree (hs hs' : Host) (p : nat) :
  opened hs' = opened hs →
  (∀ h, h ∈ opened hs → share_of (engine hs') h = share_of (engine hs) h) →
  refcount hs' p = refcount hs p.
Proof.
  intros Ho Hs. unfold refcount. rewrite Ho. f_equal.
  apply filter_agree. intros h Hh. by rewrite Hs.
Qed.

Lemma inv_frame (hs : Host) (st' : State) :
  registry_inv hs →
  shares st' = shares (engine hs) →
  ldb_open_tables st' = ldb_open_tables (engine hs) →
  (∀ h, h ∈ opened hs → share_of st' h = share_of (engine hs) h) →
  (∀ h, is_Some (handlers st' !! h) → (h < next_addr st')%nat) →
  (next_addr (engine hs) ≤ next_addr st')%nat →
  (wo_sync (engine hs) = true → wo_sync st' = true) →
  registry_inv {| engine := st'; opened := opened hs |}.
Proof.
  intros [] Hsh Htab Hso Hfh Hna Hsync.
  split; simpl; rewrite ?Hsh, ?Htab; try done.
  - intros p sh Hp.
    rewrite (refcount_agree hs) by done. eauto.
  - intros h Hh. destruct (inv_opened0 h Hh) as (p & Hp & Hlive).
    exists p. by rewrite Hso.
  - intros p Hp. specialize (inv_fresh_share0 p Hp). lia.
  - eauto.
Qed.

(** What a returning [open] has done: the table's share was registered
    and gains a reference, or no share could be made, or a new share is
    registered with one reference. *)
Lemma open_inv (e : Env) (h : nat) (name : string) (st st' : State) (rc : Z) :
  ha_ldb_open e h name st = Some (rc, st') →
  ∃ this, handlers st !! h = Some this ∧ ldb_mutex st = false ∧
    ((∃ p sh, my_hash_search st name = Some p ∧ shares st !! p = Some sh ∧ rc = 0
              ∧ shares st'
                = <[p := set_use_count sh (uint_incr (use_count sh))]> (shares st)
              ∧ ldb_open_tables st' = ldb_open_tables st
              ∧ handlers st' = <[h := set_share this (Some p)]> (handlers st)
              ∧ next_addr st' = next_addr st ∧ wo_sync st' = wo_sync st
              ∧ ldb_mutex st' = false
              ∧ trace st' = trace st ∧ disk st' = disk st ∧ dbs st' = dbs st)
     ∨ (my_hash_search st name = None ∧ rc = 1
        ∧ (malloc_fails e = true ∨ hash_insert_fails e = true)
        ∧ shares st' = shares st ∧ ldb_open_tables st' = ldb_open_tables st
        ∧ handlers st' = <[h := set_share this None]> (handlers st)
        ∧ (next_addr st ≤ next_addr st')%nat
        ∧ (wo_sync st = true → wo_sync st' = true))
     ∨ (∃ d r, my_hash_search st name = None ∧ rc = 0
          ∧ shares st'
            = <[next_addr st := {| table_name := name; use_count := 1; db := d |}]>
                (shares st)
          ∧ ldb_open_tables st' = ldb_open_tables st ++ [next_addr st]
          ∧ handlers st' = <[h := set_share this (Some (next_addr st))]> (handlers st)
          ∧ (next_addr st < next_addr st')%nat ∧ wo_sync st' = true
          ∧ ldb_mutex st' = false
          ∧ trace st' = trace st ++ [EvOpen name false 33554432 r]
          ∧ (ok r = false → d = None)
          ∧ (ok (io_fault e) = false → r = io_fault e)
          ∧ dbs st' = match d with
                      | Some d' => <[d' := name]> (dbs st)
                      | None => dbs st
                      end
          ∧ (∀ n, contents st' n = contents st n))).
Proof.
  intros Hrun. unfold_method.
  repeat (split_on Hrun; try discriminate Hrun); simplify_eq; simpl.
  all: eexists; split; [reflexivity|]; split; [done|].
  all: first
    [ solve [left; by eexists _, _]
    | solve [right; left; split_and!; try done; try (simpl; lia); auto]
    | right; right; eexists _, _; split_and!; try done; try (simpl; lia);
      try (intros; congruence);
      try (intros n'; unfold contents; simpl; apply touch_contents) ].

Qed.

(** What a returning [close] has done: the share lost a reference, and
    with its last one its database object, its registration and itself. *)
Lemma close_inv (h : nat) (st st' : State) (rc : Z) :
  ha_ldb_close h st = Some (rc, st') →
  ∃ this p sh,
    handlers st !! h = Some this ∧ share this = Some p ∧ shares st !! p = Some sh
    ∧ rc = 0 ∧ ldb_mutex st = false
    ∧ handlers st' = handlers st ∧ next_addr st' = next_addr st
    ∧ wo_sync st' = wo_sync st ∧ ldb_mutex st' = false ∧ disk st' = disk st
    ∧ ((uint_decr (use_count sh) = 0
        ∧ shares st' = delete p (shares st)
        ∧ ldb_open_tables st' = filter (λ q, q ≠ p) (ldb_open_tables st)
        ∧ match db sh with
          | Some d => trace st' = trace st ++ [EvClose d]
                      ∧ dbs st' = delete d (dbs st) ∧ is_Some (dbs st !! d)
          | None => trace st' = trace st ∧ dbs st' = dbs st
          end)
       ∨ (uint_decr (use_count sh) ≠ 0
          ∧ shares st' = <[p := set_use_count sh (uint_decr (use_count sh))]> (shares st)
          ∧ ldb_open_tables st' = ldb_open_tables st
          ∧ trace st' = trace st ∧ dbs st' = dbs st)).
Proof.
  intros Hrun. unfold_method.
  repeat (split_on Hrun; try discriminate Hrun); simplify_eq; simpl.
  all: eexists _, _, _; split_and!; try done.
  all: first
    [ solve [left; split_and!; try done;
             match goal with H : db _ = _ |- _ => rewrite H end; eauto]
    | solve [right; by split_and!] ].
Qed.


Lemma my_hash_search_none (st : State) (name : string) (p : nat) (sh : LEVELDB_SHARE) :
  my_hash_search st name = None →
  p ∈ ldb_open_tables st → shares st !! p = Some sh → table_name sh ≠ name.
Proof.
  intros Hfind Hin Hp. apply list_elem_of_In in Hin.
  pose proof (find_none _ _ Hfind p Hin) as Hf. simpl in Hf.
  rewrite Hp in Hf. by apply bool_decide_eq_false in Hf.
Qed.

Lemma refcount_open (hs : Host) (st' : State) (h p q : nat) :
  h ∉ opened hs →
  (∀ h', h' ≠ h → share_of st' h' = share_of (engine hs) h') →
  share_of st' h = Some p →
  refcount {| engine := st'; opened := {[h]} ∪ opened hs |} q
  = ((if decide (q = p) then 1 else 0) + refcount hs q)%nat.
Proof.
  intros Hh Hother Hp. unfold refcount. simpl.
  rewrite size_filter_add by done. rewrite Hp. f_equal.
  - destruct (decide (q = p)) as [->|Hne].
    + by rewrite decide_True.
    + rewrite decide_False; [done|]. intros [= ->]. done.
  - f_equal. apply filter_agree. intros x Hx.
    rewrite Hother; [done|]. by intros ->.
Qed.

Lemma refcount_close (hs : Host) (st' : State) (h p q : nat) :
  h ∈ opened hs →
  share_of (engine hs) h = Some p →
  (∀ h', share_of st' h' = share_of (engine hs) h') →
  refcount hs q
  = ((if decide (q = p) then 1 else 0)
     + refcount {| engine := st'; opened := opened hs ∖ {[h]} |} q)%nat.
Proof.
  intros Hh Hp Hsame. unfold refcount. simpl.
  rewrite (size_filter_split _ _ h) by done. rewrite Hp. f_equal.
  - destruct (decide (q = p)) as [->|Hne].
    + by rewrite decide_True.
    + rewrite decide_False; [done|]. intros [= ->]. done.
  - f_equal. apply filter_agree. intros x Hx. by rewrite Hsame.
Qed.

Lemma refcount_le (hs : Host) (p : nat) : (refcount hs p ≤ size (opened hs))%nat.
Proof. apply size_filter_le. Qed.

Lemma share_of_insert (st st' : State) (h h' : nat) (o : ha_ldb) :
  handlers st' = <[h := o]> (handlers st) →
  share_of st' h' = if decide (h = h') then share o else share_of st h'.
Proof.
  intros Hh. unfold share_of. rewrite Hh.
  case_decide as Heq.
  - subst h'. by rewrite lookup_insert_eq.
  - by rewrite lookup_insert_ne.
Qed.

Lemma uint_incr_small (n : Z) : 0 ≤ n < UINT_MODULUS - 1 → uint_incr n = n + 1.
Proof. intros Hn. unfold uint_incr. apply Z.mod_small. lia. Qed.

Lemma uint_decr_small (n : Z) : 0 < n < UINT_MODULUS → uint_decr n = n - 1.
Proof. intros Hn. unfold uint_decr. apply Z.mod_small. lia. Qed.

Lemma inv_open (hs : Host) (e : Env) (h : nat) (name : string) (rc : Z) (st' : State) :
  registry_inv hs →
  h ∉ opened hs →
  Z.of_nat (size (opened hs)) + 1 < UINT_MODULUS →
  ha_ldb_open e h name (engine hs) = Some (rc, st') →
  registry_inv
    {| engine := st';
       opened := if decide (rc = 0) then {[h]} ∪ opened hs else opened hs |}.
Proof.
  intros Hinv Hh Hsize Hrun.
  apply open_inv in Hrun as (this & Hthis & Hmx & Hcases).
  destruct Hcases as
    [(p & sh & Hfind & Hp & -> & Hsh & Htab & Hhd & Hna & Hsync & _)
    |[(Hfind & -> & _ & Hsh & Htab & Hhd & Hna & Hsync)
     |(d & r & Hfind & -> & Hsh & Htab & Hhd & Hna & Hsync & _)]].
  - (* the table's share exists *)
    rewrite decide_True by done.
    destruct Hinv. destruct (inv_count0 p sh Hp) as [Hcnt Hpos].
    pose proof (refcount_le hs p) as Hle.
    assert (∀ q, refcount {| engine := st'; opened := {[h]} ∪ opened hs |} q
                 = ((if decide (q = p) then 1 else 0) + refcount hs q)%nat) as Hrc.
    { intros q. apply refcount_open; [done| |].
      - intros h' Hne. rewrite (share_of_insert _ _ _ _ _ Hhd).
        by rewrite decide_False.
      - rewrite (share_of_insert _ _ _ _ _ Hhd). by rewrite decide_True. }
    split; simpl; rewrite ?Htab, ?Hsh, ?Hna, ?Hsync; try done.
    + intros q. rewrite inv_registered0, lookup_insert_is_Some.
      split; [destruct (decide (p = q)); eauto|]. intros [<-|[_ ?]]; eauto.
    + intros q1 q2 s1 s2 H1 H2.
      apply lookup_insert_Some in H1 as [[<- <-]|[? H1]];
        apply lookup_insert_Some in H2 as [[<- <-]|[? H2]]; simpl; eauto.
    + intros q s' Hq. rewrite Hrc.
      apply lookup_insert_Some in Hq as [[<- <-]|[Hne Hq]]; simpl.
      * rewrite decide_True by done. rewrite uint_incr_small by lia. lia.
      * rewrite decide_False by done. apply (inv_count0 q s' Hq).
    + intros h' Hh'. rewrite (share_of_insert _ _ _ _ _ Hhd).
      apply elem_of_union in Hh' as [->%elem_of_singleton|Hh'].
      * rewrite decide_True by done. exists p. split; [done|].
        rewrite lookup_insert_is_Some. eauto.
      * rewrite decide_False by (by intros ->).
        destruct (inv_opened0 h' Hh') as (q & Hq & Hlive).
        exists q. split; [done|]. rewrite lookup_insert_is_Some.
        destruct (decide (p = q)); eauto.
    + rewrite size_union, size_singleton by (by apply disjoint_singleton_l). lia.
    + intros q. rewrite lookup_insert_is_Some. intros [<-|[_ ?]]; eauto.
    + intros h'. rewrite Hhd, lookup_insert_is_Some. intros [<-|[_ ?]]; eauto.
    + intros q _. apply (inv_sync0 p). eauto.
  - (* no share could be made *)
    rewrite decide_False by done.
    apply inv_frame; try done.
    + intros h' Hh'. rewrite (share_of_insert _ _ _ _ _ Hhd).
      by rewrite decide_False by (by intros ->).
    + intros h'. rewrite Hhd, lookup_insert_is_Some.
      destruct Hinv. intros [<-|[_ Hx]].
      * specialize (inv_fresh_handler0 h). rewrite Hthis in inv_fresh_handler0.
        specialize (inv_fresh_handler0 (mk_is_Some _ _ eq_refl)). lia.
      * specialize (inv_fresh_handler0 h' Hx). lia.
  - (* a new share *)
    rewrite decide_True by done.
    destruct Hinv. set (p := next_addr (engine hs)) in *.
    assert (shares (engine hs) !! p = None) as Hnew.
    { destruct (shares (engine hs) !! p) eqn:Hp; [|done].
      specialize (inv_fresh_share0 p). rewrite Hp in inv_fresh_share0.
      specialize (inv_fresh_share0 (mk_is_Some _ _ eq_refl)). lia. }
    assert (∀ h', h' ∈ opened hs → share_of (engine hs) h' ≠ Some p) as Hnoref.
    { intros h' Hh' Hp. destruct (inv_opened0 h' Hh') as (q & Hq & [sq Hlive]).
      congruence. }
    assert (refcount hs p = 0%nat) as Hzero.
    { unfold refcount. apply size_empty_iff. apply set_equiv. intros x.
      rewrite elem_of_filter, elem_of_empty. split; [|done].
      intros [Hx Hin]. by apply (Hnoref x). }
    assert (∀ q, refcount {| engine := st'; opened := {[h]} ∪ opened hs |} q
                 = ((if decide (q = p) then 1 else 0) + refcount hs q)%nat) as Hrc.
    { intros q. apply refcount_open; [done| |].
      - intros h' Hne. rewrite (share_of_insert _ _ _ _ _ Hhd).
        by rewrite decide_False.
      - rewrite (share_of_insert _ _ _ _ _ Hhd). by rewrite decide_True. }
    split; simpl; rewrite ?Htab, ?Hsh, ?Hsync; try done.
    + apply NoDup_app. split_and!; [done| |apply NoDup_singleton].
      intros q Hq ->%list_elem_of_singleton.
      apply inv_registered0 in Hq as [? Hq]. congruence.
    + intros q. rewrite elem_of_app, list_elem_of_singleton, inv_registered0.
      rewrite lookup_insert_is_Some. split.
      * intros [?| ->]; [|by left]. destruct (decide (p = q)); eauto.
      * intros [<-|[_ ?]]; eauto.
    + intros q1 q2 s1 s2 H1 H2.
      apply lookup_insert_Some in H1 as [[<- <-]|[? H1]];
        apply lookup_insert_Some in H2 as [[<- <-]|[? H2]]; simpl; eauto.
      * intros Hn. exfalso.
        apply (my_hash_search_none _ _ q2 s2 Hfind); [|done..].
        apply inv_registered0. eauto.
      * intros Hn. exfalso.
        apply (my_hash_search_none _ _ q1 s1 Hfind); [|done..].
        apply inv_registered0. eauto.
    + intros q s' Hq. rewrite Hrc.
      apply lookup_insert_Some in Hq as [[<- <-]|[Hne Hq]]; simpl.
      * rewrite decide_True by done. rewrite Hzero. lia.
      * rewrite decide_False by done. apply (inv_count0 q s' Hq).
    + intros h' Hh'. rewrite (share_of_insert _ _ _ _ _ Hhd).
      apply elem_of_union in Hh' as [->%elem_of_singleton|Hh'].
      * rewrite decide_True by done. exists p. split; [done|].
        rewrite lookup_insert_is_Some. eauto.
      * rewrite decide_False by (by intros ->).
        destruct (inv_opened0 h' Hh') as (q & Hq & Hlive).
        exists q. split; [done|]. rewrite lookup_insert_is_Some.
        destruct (decide (p = q)); eauto.
    + rewrite size_union, size_singleton by (by apply disjoint_singleton_l). lia.
    + intros q. rewrite lookup_insert_is_Some. intros [<-|[_ Hq]]; [done|].
      specialize (inv_fresh_share0 q Hq). lia.
    + intros h'. rewrite Hhd, lookup_insert_is_Some. intros [<-|[_ Hx]].
      * specialize (inv_fresh_handler0 h). rewrite Hthis in inv_fresh_handler0.
        specialize (inv_fresh_handler0 (mk_is_Some _ _ eq_refl)). lia.
      * specialize (inv_fresh_handler0 h' Hx). lia.
Qed.

Lemma inv_close (hs : Host) (h : nat) (rc : Z) (st' : State) :
  registry_inv hs →
  h ∈ opened hs →
  ha_ldb_close h (engine hs) = Some (rc, st') →
  registry_inv {| engine := st'; opened := opened hs ∖ {[h]} |}.
Proof.
  intros Hinv Hh Hrun.
  apply close_inv in Hrun
    as (this & p & sh & Hthis & Hshare & Hp & -> & Hmx & Hhd & Hna & Hsync & _ & _ & Hcases).
  destruct Hinv. destruct (inv_count0 p sh Hp) as [Hcnt Hpos].
  pose proof (refcount_le hs p) as Hle.
  assert (share_of (engine hs) h = Some p) as Hso.
  { unfold share_of. by rewrite Hthis. }
  assert (∀ h', share_of st' h' = share_of (engine hs) h') as Hsame.
  { intros h'. unfold share_of. by rewrite Hhd. }
  assert (∀ q, refcount hs q
               = ((if decide (q = p) then 1 else 0)
                  + refcount {| engine := st'; opened := opened hs ∖ {[h]} |} q)%nat)
    as Hrc.
  { intros q. by apply refcount_close. }
  assert (size (opened hs ∖ {[h]}) ≤ size (opened hs))%nat as Hsz.
  { apply subseteq_size. apply subseteq_difference_l. done. }
  rewrite uint_decr_small in Hcases by lia.
  destruct Hcases as [(Hlast & Hsh & Htab & _)|(Hmore & Hsh & Htab & _)].
  - (* the last reference *)
    assert (refcount {| engine := st'; opened := opened hs ∖ {[h]} |} p = 0%nat) as Hz.
    { specialize (Hrc p). rewrite decide_True in Hrc by done. lia. }
    split; simpl; rewrite ?Htab, ?Hsh, ?Hna, ?Hsync, ?Hhd; try done.
    + by apply NoDup_filter.
    + intros q. rewrite list_elem_of_filter, inv_registered0, lookup_delete_is_Some.
      split; intros [Hne ?]; (split; [by intros ->|done]).
    + intros q1 q2 s1 s2 H1 H2.
      apply lookup_delete_Some in H1 as [_ H1].
      apply lookup_delete_Some in H2 as [_ H2]. eauto.
    + intros q s' Hq. apply lookup_delete_Some in Hq as [Hne Hq].
      specialize (Hrc q). rewrite decide_False in Hrc by done.
      simpl in Hrc. rewrite <- Hrc. apply (inv_count0 q s' Hq).
    + intros h' Hh'. apply elem_of_difference in Hh' as [Hh' Hne].
      destruct (inv_opened0 h' Hh') as (q & Hq & Hlive).
      exists q. rewrite Hsame. split; [done|].
      rewrite lookup_delete_is_Some. split; [|done].
      intros <-. unfold refcount in Hz. simpl in Hz.
      apply size_empty_iff in Hz.
      assert (h' ∈ filter (λ x, share_of st' x = Some p) (opened hs ∖ {[h]})) as Hin.
      { apply elem_of_filter. rewrite Hsame. split; [done|].
        by apply elem_of_difference. }
      rewrite Hz in Hin. by apply elem_of_empty in Hin.
    + lia.
    + intros q. rewrite lookup_delete_is_Some. intros [_ ?]. eauto.
    + intros q. rewrite lookup_delete_is_Some. intros [_ ?]. eauto.
  - (* other references remain *)
    split; simpl; rewrite ?Htab, ?Hsh, ?Hna, ?Hsync, ?Hhd; try done.
    + intros q. rewrite inv_registered0, lookup_insert_is_Some.
      split; [destruct (decide (p = q)); eauto|]. intros [<-|[_ ?]]; eauto.
    + intros q1 q2 s1 s2 H1 H2.
      apply lookup_insert_Some in H1 as [[<- <-]|[? H1]];
        apply lookup_insert_Some in H2 as [[<- <-]|[? H2]]; simpl; eauto.
    + intros q s' Hq. specialize (Hrc q).
      apply lookup_insert_Some in Hq as [[<- <-]|[Hne Hq]]; simpl.
      * rewrite decide_True in Hrc by done. lia.
      * rewrite decide_False in Hrc by done. simpl in Hrc. rewrite <- Hrc.
        apply (inv_count0 q s' Hq).
    + intros h' Hh'. apply elem_of_difference in Hh' as [Hh' Hne].
      destruct (inv_opened0 h' Hh') as (q & Hq & Hlive).
      exists q. rewrite Hsame. split; [done|].
      rewrite lookup_insert_is_Some. destruct (decide (p = q)); eauto.
    + lia.
    + intros q. rewrite lookup_insert_is_Some. intros [<-|[_ ?]]; eauto.
    + intros q _. apply (inv_sync0 p). eauto.
Qed.

Lemma inv_create_handler (hs : Host) (t : TABLE) (r : nat) (st' : State) :
  registry_inv hs →
  ldb_create_handler t (engine hs) = Some (r, st') →
  registry_inv {| engine := st'; opened := opened hs |}.
Proof.
  intros Hinv Hrun. unfold_method. simplify_eq.
  apply inv_frame; simpl; try done; [| |lia].
  - intros h Hh. unfold share_of. simpl.
    destruct Hinv. destruct (inv_opened0 h Hh) as (p & Hp & _).
    rewrite lookup_insert_ne; [done|]. intros <-.
    unfold share_of in Hp.
    destruct (handlers (engine hs) !! next_addr (engine hs)) eqn:Hx; [|done].
    specialize (inv_fresh_handler0 _ (mk_is_Some _ _ Hx)). lia.
  - intros h. rewrite lookup_insert_is_Some. destruct Hinv.
    intros [<-|[_ Hx]]; [lia|]. specialize (inv_fresh_handler0 _ Hx). lia.
Qed.

(** Every step of the host keeps the invariant. *)
Lemma host_step_inv (hs hs' : Host) (rq : Request) (r : Z * bytes) :
  registry_inv hs → host_step hs rq = Some (r, hs') → registry_inv hs'.
Proof.
  intros Hinv Hstep. unfold host_step in Hstep.
  destruct (allowed_call hs (req_call rq)) eqn:Hok; [|done].
  destruct (run _ _ _ _) as [[r' st']|] eqn:Hrun; [|done]. simplify_eq.
  destruct (is_lifecycle (req_call rq)) eqn:Hlife.
  - destruct (req_call rq) as [t|h name|h| | | | | | | | | | | | | | | | | | | | | |];
      try discriminate Hlife; simpl in *.
    + unfold bind in Hrun.
      destruct (ldb_create_handler t (engine hs)) as [[h st1]|] eqn:Hc; [|done].
      unfold ret in Hrun. simplify_eq. by eapply inv_create_handler.
    + apply andb_true_iff in Hok as [Hh%bool_decide_eq_true Hsz%bool_decide_eq_true].
      unfold code, bind in Hrun.
      destruct (ha_ldb_open _ _ _ _) as [[rc st1]|] eqn:Ho; [|done].
      unfold ret in Hrun. simplify_eq. simpl. by eapply inv_open.
    + apply bool_decide_eq_true in Hok.
      unfold code, bind in Hrun.
      destruct (ha_ldb_close _ _) as [[rc st1]|] eqn:Ho; [|done].
      unfold ret in Hrun. simplify_eq. by eapply inv_close.
  - destruct (run_frame _ _ _ _ _ _ Hlife Hrun)
      as (Hsh & Htab & Hso & Hhd & Hna & Hsync & _).
    assert (opened hs = match req_call rq with
                        | Open h _ => if decide (r.1 = 0) then {[h]} ∪ opened hs
                                      else opened hs
                        | Close h => opened hs ∖ {[h]}
                        | _ => opened hs
                        end) as <-.
    { by destruct (req_call rq). }
    apply inv_frame; try done.
    intros h Hh. apply Hhd in Hh. destruct Hinv.
    specialize (inv_fresh_handler0 h Hh). lia.
Qed.

Lemma initial_inv : registry_inv initial_host.
Proof.
  split; simpl.
  - apply NoDup_nil_2.
  - intros p. rewrite lookup_empty. split; [by intros ?%elem_of_nil|by intros [? ?]].
  - intros p q sp sq Hp. by rewrite lookup_empty in Hp.
  - intros p sh Hp. by rewrite lookup_empty in Hp.
  - intros h Hx. by apply elem_of_empty in Hx.
  - done.
  - intros p. rewrite lookup_empty. by intros [? ?].
  - intros h. rewrite lookup_empty. by intros [? ?].
  - intros p. rewrite lookup_empty. by intros [? ?].
Qed.

Lemma host_run_inv (rqs : list Request) (hs hs' : Host) :
  registry_inv hs → host_run hs rqs = Some hs' → registry_inv hs'.
Proof.
  revert hs. induction rqs as [|rq rqs IH]; intros hs Hinv Hrun; simpl in Hrun.
  - by simplify_eq.
  - destruct (host_step hs rq) as [[r hs1]|] eqn:Hstep; [|done].
    eapply IH; [|done]. by eapply host_step_inv.
Qed.

Lemma reachable_inv (hs : Host) : reachable hs → registry_inv hs.
Proof. intros [rqs Hrun]. by eapply host_run_inv; [apply initial_inv|]. Qed.















(** ** Commit at unlock *)

Lemma unlock_with_scope (e : Env) (thd h : nat) (st : State) (trx : trx_t)
    (o : ha_ldb) (p : nat) (sh : LEVELDB_SHARE) (d : nat) (name : string) :
  ha_data st !! thd = Some trx →
  handlers st !! pobj trx = Some o → share o = Some p →
  shares st !! p = Some sh → db sh = Some d → dbs st !! d = Some name →
  ha_ldb_external_lock e thd h F_UNLCK st
  = Some (if ok (io_fault e) then 0 else 1,
          set_ha_data (delete thd)
            ((if ok (io_fault e)
              then set_disk <[name := apply_batch (batch trx) (contents st name)]>
              else id)
               (set_trace (λ t, t ++ [EvWrite d (wo_sync st) (batch trx) (io_fault e)])
                  st))).
Proof.
  intros Htrx Ho Hshare Hp Hd Hname.
  rewrite external_lock_unlock_unfold, Htrx.
  unfold_method. rewrite Ho, Hshare, Hp, Hd, Hname. simpl.
  by destruct (io_fault e).
Qed.

Lemma lock_without_scope (e : Env) (thd h : nat) (lock_type : Z) (st : State) :
  lock_type ≠ F_UNLCK → ha_data st !! thd = None →
  ha_ldb_external_lock e thd h lock_type st
  = Some (0, set_ha_data <[thd := {| pobj := h; batch := [] |}]> st).
Proof.
  intros Hlock Htrx. unfold_method.
  rewrite decide_True by done. by rewrite Htrx.
Qed.

(** C1: releasing the write lock (F_UNLCK) in a session whose scope is
    active hands the session's batch to the store of the scope's table
    in one [Write] with the sync option set; the call returns 0 when the
    store reports ok and 1 otherwise.  On success the database holds the
    batch applied in order, on failure it is unchanged; in both cases the
    session's transaction object is destroyed, so that the next lock
    starts a scope with an empty batch. *)
Theorem unlock_commits (hs : Host) (e : Env) (thd h : nat) (trx : trx_t)
    (o : ha_ldb) (p : nat) (sh : LEVELDB_SHARE) (d : nat) (name : string) :
  reachable hs →
  ha_data (engine hs) !! thd = Some trx →
  handlers (engine hs) !! pobj trx = Some o → share o = Some p →
  shares (engine hs) !! p = Some sh → db sh = Some d →
  dbs (engine hs) !! d = Some name →
  ∃ st',
    ha_ldb_external_lock e thd h F_UNLCK (engine hs)
      = Some (if ok (io_fault e) then 0 else 1, st')
    ∧ trace st' = trace (engine hs) ++ [EvWrite d true (batch trx) (io_fault e)]
    ∧ ha_data st' = delete thd (ha_data (engine hs))
    ∧ ha_data st' !! thd = None
    ∧ (ok (io_fault e) = true →
       disk st' = <[name := apply_batch (batch trx) (contents (engine hs) name)]>
                    (disk (engine hs)))
    ∧ (ok (io_fault e) = false → disk st' = disk (engine hs))
    ∧ (∀ e2 h2 lock_type, lock_type ≠ F_UNLCK →
         ∃ st'', ha_ldb_external_lock e2 thd h2 lock_type st' = Some (0, st'')
                 ∧ ha_data st'' !! thd = Some {| pobj := h2; batch := [] |}).
Proof.
  intros Hreach Htrx Ho Hshare Hp Hd Hname.
  assert (wo_sync (engine hs) = true) as Hsync.
  { apply (inv_sync hs (reachable_inv hs Hreach) p). eauto. }
  eexists. split; [by eapply unlock_with_scope|].
  rewrite Hsync. split_and!.
  - by destruct (ok (io_fault e)).
  - by destruct (ok (io_fault e)).
  - destruct (ok (io_fault e)); apply lookup_delete_eq.
  - by intros ->.
  - by intros ->.
  - intros e2 h2 lock_type Hlock. eexists. split.
    + apply lock_without_scope; [done|].
      destruct (ok (io_fault e)); apply lookup_delete_eq.
    + apply lookup_insert_eq.
Qed.

Lemma unlock_commits_witness :
  ∃ st',
    ha_ldb_external_lock failing_env 7 0 F_UNLCK (engine staged_host) = Some (1, st')
    ∧ trace st'
      = trace (engine staged_host)
        ++ [EvWrite 3 true [Put [x61; x62] sample_row] kIOError]
    ∧ ha_data st' !! 7%nat = None
    ∧ disk st' = disk (engine staged_host).
Proof.
  destruct (unlock_commits staged_host failing_env 7 0
              {| pobj := 0%nat; batch := [Put [x61; x62] sample_row] |}
              (set_share (set_dbpath sample_handler "t") (Some 2%nat)) 2
              {| table_name := "t"; use_count := 1; db := Some 3%nat |} 3 "t")
    as (st' & Hrun & Htr & _ & Hgone & _ & Hfail & _).
  - exists (sample_requests ++ [request sample_env (Write_row 0%nat sample_row)]).
    vm_compute. reflexivity.
  - vm_compute. reflexivity.
  - vm_compute. reflexivity.
  - reflexivity.
  - vm_compute. reflexivity.
  - reflexivity.
  - vm_compute. reflexivity.
  - exists st'. split_and!; [exact Hrun|exact Htr|exact Hgone|by apply Hfail].
Defined.

(** ** Round trip *)









(** ** Evaluations on the sample inputs *)

Lemma unlock_without_scope_witness :
  ha_ldb_external_lock sample_env 7 0 F_UNLCK initial_state = Some (1, initial_state).
Proof. apply (unlock_without_scope sample_env 7 0 initial_state). reflexivity. Defined.

Lemma scans_unsupported_witness :
  ∃ rc st',
    run sample_env 7 (Index_next 0 sample_row) sample_state
      = Some (rc, sample_row, st')
    ∧ (rc = HA_ERR_WRONG_COMMAND ∨ rc = HA_ERR_END_OF_FILE)
    ∧ rc ≠ 0
    ∧ disk st' = disk sample_state ∧ trace st' = trace sample_state.
Proof.
  apply (scans_unsupported sample_env 7 (Index_next 0 sample_row) sample_state 0).
  - reflexivity.
  - reflexivity.
  - vm_compute. eauto.
Defined.

Lemma create_checks_schema_witness :
  ∃ rc r st',
    ha_ldb_create sample_env 7 0 "u" sample_table sample_state = Some (rc, st')
    ∧ trace st' = trace sample_state ++ [EvOpen "u" true 33554432 r]
    ∧ (rc = 0 ↔ ok r = true).
Proof.
  apply (create_checks_schema sample_env 7 0 "u" sample_table sample_state).
  - vm_compute. eauto.
  - split; reflexivity.
Defined.

Lemma open_ignores_store_failure_witness :
  ∃ st' o r,
    ha_ldb_open sample_env 1 "missing" (engine two_handlers_host) = Some (0, st')
    ∧ ok r = false
    ∧ trace st' = trace (engine two_handlers_host) ++ [EvOpen "missing" false 33554432 r]
    ∧ handlers st' !! 1%nat = Some o
    ∧ share o = Some (next_addr (engine two_handlers_host))
    ∧ shares st' !! next_addr (engine two_handlers_host)
      = Some {| table_name := "missing"; use_count := 1; db := None |}.
Proof.
  apply (open_ignores_store_failure sample_env 1 "missing" (engine two_handlers_host)).
  - vm_compute. eauto.
  - vm_compute. reflexivity.
  - vm_compute. reflexivity.
  - reflexivity.
  - reflexivity.
  - right. vm_compute. reflexivity.
Defined.
